(** * AJM MP3 decoder (core/libraries/ajm/ajm_mp3.cpp): model and properties

    The file embeds the three operations of [AjmMp3Decoder] that the
    specification talks about: the header parser [ParseMp3Header], the
    session reset [Reset] and the chunked decode loop [Decode] together with
    the helper [ConvertAudioFrame] and the namespace-scope variable
    [swr_context].  Machine integers are [Z] with their wrap-around written
    out, buffers are lists of bytes, the FFmpeg handles are keys of finite
    maps, and FFmpeg itself (parser, decoder, resampler, allocator) is an
    interface the development is parametric in. *)

From Stdlib Require Import ZArith Lia List.
From Stdlib Require Import Strings.Byte.
From stdpp Require Import base option list gmap.

Open Scope Z_scope.

(** ** Machine integers and bytes *)

(** Reduction of a value to a [bits]-wide unsigned integer. *)
Definition wrap (bits x : Z) : Z := x mod 2 ^ bits.

(** A [u8] as the [int] it is promoted to in an expression. *)
Definition u8 (b : byte) : Z := Z.of_N (Byte.to_N b).

(** [a[i]] for a [std::array] or a buffer: a read outside the object is
    undefined behaviour and is modelled by [None]. *)
Definition at_index {A} (a : list A) (i : Z) : option A :=
  if i <? 0 then None else a !! Z.to_nat i.

(** ** The header parser *)

(** The three tables reversed from the AJM library (lines 16-27). *)
Definition SamplerateTable : list (list Z) :=
  [ [0x5622; 0x5DC0; 0x3E80];
    [0xAC44; 0xBB80; 0x7D00];
    [0x2B11; 0x2EE0; 0x1F40] ].

Definition BitrateTable : list (list Z) :=
  [ [0; 0x20; 0x28; 0x30; 0x38; 0x40; 0x50; 0x60; 0x70; 0x80; 0xA0; 0xC0; 0xE0; 0x100; 0x140];
    [0; 0x8; 0x10; 0x18; 0x20; 0x28; 0x30; 0x38; 0x40; 0x50; 0x60; 0x70; 0x80; 0x90; 0xA0] ].

Definition UnkTable : list Z := [0x48; 0x90].

(** Modelled from the spec: the structure [AjmDecMp3ParseFrame] is declared
    in ajm_mp3.h, which is not part of the sources at hand.  The fields are
    the six that [ParseMp3Header] assigns; section 3 of the specification
    types them as unsigned 32-bit integers ([num_channels] as 8-bit). *)
Record AjmDecMp3ParseFrame := mkFrame {
  frame_size : Z;
  num_channels : Z;
  samples_per_channel : Z;
  bitrate : Z;
  sample_rate : Z;
  encoder_delay : Z
}.

(** The five index expressions of lines 130-134.  [>>] binds tighter than
    [&], and [&] tighter than [^]. *)
Definition unk_idx (b1 : byte) : Z := Z.land (Z.shiftr (u8 b1) 3) 1.
Definition version_idx (b1 : byte) : Z := Z.lxor (Z.land (Z.shiftr (u8 b1) 3) 3) 2.
Definition sr_idx (b2 : byte) : Z := Z.land (Z.shiftr (u8 b2) 2) 3.
Definition br_idx (b2 : byte) : Z := Z.land (Z.shiftr (u8 b2) 4) 0xf.
Definition padding_bit (b2 : byte) : Z := Z.land (Z.shiftr (u8 b2) 1) 0x1.

(** Integer division of C++: truncating, undefined for a zero divisor. *)
Definition cdiv (a b : Z) : option Z :=
  if b =? 0 then None else Some (Z.quot a b).

(** [ParseMp3Header] (lines 128-147).  [buf[0]] is never read, nor is
    [stream_size]; every field of [*frame] is assigned, so the record is a
    result and not an input.  The result is [None] when the call reads
    outside [buf] or outside a table, or divides by zero; otherwise it is the
    returned status and the record written. *)
Definition ParseMp3Header (buf : list byte) (stream_size : Z) (parse_ofl : Z)
  : option (Z * AjmDecMp3ParseFrame) :=
  b1 ← buf !! 1%nat;
  b2 ← buf !! 2%nat;
  b3 ← buf !! 3%nat;
  sr_row ← at_index SamplerateTable (version_idx b1);
  sr ← at_index sr_row (sr_idx b2);
  let f_sample_rate := wrap 32 sr in
  br_row ← at_index BitrateTable (Z.b2z (negb (version_idx b1 =? 1)));
  br ← at_index br_row (br_idx b2);
  let f_bitrate := wrap 32 (br * 1000) in
  let f_num_channels := Z.b2z (u8 b3 <? 0xc0) + 1 in
  unk ← at_index UnkTable (unk_idx b1);
  q ← cdiv (wrap 32 (unk * f_bitrate)) f_sample_rate;
  let f_frame_size := wrap 32 (q + padding_bit b2) in
  let f_samples_per_channel := wrap 32 (unk * 8) in
  let f := mkFrame f_frame_size f_num_channels f_samples_per_channel
                   f_bitrate f_sample_rate 0 in
  if parse_ofl =? 0 then Some (0, f) else Some (0, f).

(** *** The algorithm of section 4.1, written from its nine steps *)

(** "bit [n] of" a byte. *)
Definition bit_of (n : Z) (b : Z) : Z := Z.b2z (Z.testbit b n).

(** "bits [lo]..[hi] of" a byte, as a number. *)
Definition bits_of (lo hi : Z) (b : Z) : Z := (b / 2 ^ lo) mod 2 ^ (hi - lo + 1).

Definition spec_unk_idx (byte1 : Z) : Z := bit_of 3 byte1.
Definition spec_version_idx (byte1 : Z) : Z := Z.lxor (bits_of 3 4 byte1) 2.
Definition spec_sr_idx (byte2 : Z) : Z := bits_of 2 3 byte2.
Definition spec_br_idx (byte2 : Z) : Z := bits_of 4 7 byte2.
Definition spec_padding_bit (byte2 : Z) : Z := bit_of 1 byte2.

(** Step 7, with truncating division. *)
Definition spec_frame_size (unk bitrate sample_rate padding : Z) : Z :=
  Z.quot (unk * bitrate) sample_rate + padding.

Definition spec_ParseFrameHeader (byte1 byte2 byte3 : Z) : option AjmDecMp3ParseFrame :=
  let unk_i := spec_unk_idx byte1 in
  let version_i := spec_version_idx byte1 in
  let sr_i := spec_sr_idx byte2 in
  let br_i := spec_br_idx byte2 in
  let padding := spec_padding_bit byte2 in
  unk ← at_index UnkTable unk_i;
  sr_row ← at_index SamplerateTable version_i;
  sample_rate ← at_index sr_row sr_i;
  br_row ← at_index BitrateTable (if version_i =? 1 then 0 else 1);
  br ← at_index br_row br_i;
  let bitrate := br * 1000 in
  let channels := if byte3 <? 0xC0 then 2 else 1 in
  Some (mkFrame (spec_frame_size unk bitrate sample_rate padding)
                channels (unk * 8) bitrate sample_rate 0).

(** The derived indices address an entry of the tables: three rows and three
    columns of sample rates, fifteen columns of bit rates. *)
Definition indices_in_range (byte1 byte2 : Z) : Prop :=
  spec_version_idx byte1 < 3 /\ spec_sr_idx byte2 < 3 /\ spec_br_idx byte2 < 15.

(** ** FFmpeg as the decoder uses it *)

(** [AVSampleFormat] values of libavutil/samplefmt.h. *)
Definition AV_SAMPLE_FMT_S16 : Z := 1.
Definition AV_SAMPLE_FMT_FLTP : Z := 8.

(** [AVERROR(EAGAIN)] (with the [EAGAIN] of Linux, 11) and [AVERROR_EOF] of
    libavutil/error.h.  The decoder only tells them from other statuses. *)
Definition AVERROR_EAGAIN : Z := -11.
Definition AVERROR_EOF : Z := -541478725.

Definition AV_PKT_FLAG_KEY : Z := 1.

Record AVChannelLayout := mkLayout {
  nb_channels : Z;
  ch_mask : Z
}.

(** The fields of an [AVFrame] that the decoder reads: [format],
    [ch_layout], [nb_samples], [sample_rate] and the bytes of [data[0]]. *)
Record AVFrame := mkAVFrame {
  av_format : Z;
  av_ch_layout : AVChannelLayout;
  av_nb_samples : Z;
  av_sample_rate : Z;
  av_data0 : list byte
}.

Record AVPacket := mkAVPacket {
  pkt_data : list byte;
  pkt_pts : Z;
  pkt_dts : Z;
  pkt_flags : Z
}.

(** The options [swr_alloc_set_opts2] stores in a resampler context. *)
Record SwrOpts := mkSwrOpts {
  out_ch_layout : AVChannelLayout;
  out_sample_fmt : Z;
  out_sample_rate : Z;
  in_ch_layout : AVChannelLayout;
  in_sample_fmt : Z;
  in_sample_rate : Z
}.

(** The library calls of the file, as functions on the state of the object
    they are given.  A pointer result is an address ([positive]), [None]
    standing for [NULL]; an [int] status is a [Z].
    - [av_parser_parse2 parser ctx window] returns the new parser and context
      states, the number of bytes used and the bytes of the unit put in
      [pkt->data] ([pkt->size] is their number);
    - [avcodec_receive_frame ctx] returns the status and the frame filled in;
    - [swr_convert_frame opts out inp] is [swr_init] followed by the
      conversion, for a context configured with [opts]: the status and the
      output frame. *)
Class FFmpeg := {
  ParserSt : Type;
  CodecSt : Type;
  avcodec_find_decoder : bool;
  av_parser_init : option ParserSt;
  parser_pts : ParserSt -> Z;
  parser_dts : ParserSt -> Z;
  parser_key_frame : ParserSt -> Z;
  avcodec_alloc_context3 : gset positive -> option (positive * CodecSt);
  avcodec_open2 : CodecSt -> CodecSt * Z;
  av_parser_parse2 : ParserSt -> CodecSt -> list byte -> ParserSt * CodecSt * Z * list byte;
  avcodec_send_packet : CodecSt -> AVPacket -> CodecSt * Z;
  avcodec_receive_frame : CodecSt -> CodecSt * Z * AVFrame;
  swr_alloc : gset positive -> option positive;
  swr_convert_frame : SwrOpts -> AVFrame -> AVFrame -> Z * AVFrame
}.

(** ** Outcomes of a call *)

(** The assertions of the file, by the line they stand on. *)
Inductive AssertSite :=
| CodecNotFound          (* line 56 *)
| ParserNotFound         (* line 58 *)
| CouldNotAllocate       (* line 73 *)
| CouldNotOpen           (* line 75 *)
| ErrorWhileParsing      (* line 86 *)
| ErrorSubmitting        (* line 96 *)
| ErrorDuringDecoding.   (* line 105 *)

(** A call returns, stops the process at a failed assertion, runs into
    undefined behaviour (a null pointer used, a block released twice, a read
    past a buffer), or is still running when the fuel of the model is spent. *)
Inductive Outcome (A : Type) :=
| Ret (a : A)
| Abort (site : AssertSite)
| Crash
| OutOfFuel.
Arguments Ret {A} a.
Arguments Abort {A} site.
Arguments Crash {A}.
Arguments OutOfFuel {A}.

#[global] Instance Outcome_bind : MBind Outcome := fun A B f m =>
  match m with
  | Ret a => f a
  | Abort site => Abort site
  | Crash => Crash
  | OutOfFuel => OutOfFuel
  end.

#[global] Instance Outcome_ret : MRet Outcome := fun A a => Ret a.

(** ** The state the decoder works on *)

(** What is released and allocated, in order: a history kept beside the
    state, which the code itself never reads. *)
Inductive Event :=
| EvAllocCodec (h : positive)
| EvFreeCodec (h : positive)
| EvAllocSwr (h : positive)
| EvFreeSwr (h : positive).

Section Decoder.
Context {F : FFmpeg}.

(** Everything outside an [AjmMp3Decoder] object: the live
    [AVCodecContext]s and [SwrContext]s by address, the namespace-scope
    variable [swr_context] of line 29, and the memory the output pointer
    points into. *)
Record World := mkWorld {
  codec_heap : gmap positive CodecSt;
  swr_context : option positive;
  swr_heap : gmap positive SwrOpts;
  mem : gmap Z byte;
  trace : list Event
}.

(** Modelled from the spec: the class [AjmMp3Decoder] is declared in
    ajm_mp3.h, which is not part of the sources at hand.  The members are
    those the file uses ([codec], set once by the constructor, is left out);
    section 3 of the specification types the two counters as unsigned 64-bit
    integers.  [file] is the stream every delivered block is also written to
    (line 112). *)
Record AjmMp3Decoder := mkDecoder {
  c : option positive;
  parser : ParserSt;
  decoded_samples : Z;
  num_frames : Z;
  file : list byte
}.

Definition counter_bits : Z := 64.

(** Modelled from the spec: the job-output record of section 2, declared in
    a header that is not part of the sources at hand.  All the file touches
    is the frame counter of the record [output->p_mframe] points to; [None]
    is a null [p_mframe]. *)
Record AjmSidebandMFrame := mkMFrame {
  mframe_num_frames : Z
}.

Record AjmJobOutput := mkJobOutput {
  p_mframe : option AjmSidebandMFrame
}.

Definition set_codec_heap (w : World) (h : gmap positive CodecSt) : World :=
  mkWorld h (swr_context w) (swr_heap w) (mem w) (trace w).

Definition log (w : World) (e : Event) : World :=
  mkWorld (codec_heap w) (swr_context w) (swr_heap w) (mem w) (trace w ++ [e]).

(** [avcodec_free_context(&p)]: nothing for a null [p]; otherwise the context
    is released and [p] is set to null. *)
Definition avcodec_free_context (w : World) (p : option positive)
  : Outcome (World * option positive) :=
  match p with
  | None => Ret (w, None)
  | Some h =>
      match codec_heap w !! h with
      | None => Crash
      | Some _ => Ret (log (set_codec_heap w (delete h (codec_heap w))) (EvFreeCodec h), None)
      end
  end.

(** [av_free(p)]: nothing for a null [p]; otherwise the block is released. *)
Definition av_free (w : World) (p : option positive) : Outcome World :=
  match p with
  | None => Ret w
  | Some h =>
      match codec_heap w !! h with
      | None => Crash
      | Some _ => Ret (log (set_codec_heap w (delete h (codec_heap w))) (EvFreeCodec h))
      end
  end.

(** [swr_free(&swr_context)] for a non-null [swr_context]. *)
Definition swr_free (w : World) (h : positive) : Outcome World :=
  match swr_heap w !! h with
  | None => Crash
  | Some _ =>
      Ret (mkWorld (codec_heap w) None (delete h (swr_heap w)) (mem w)
                   (trace w ++ [EvFreeSwr h]))
  end.

(** ** [Reset] (lines 67-78) *)
Definition Reset (self : AjmMp3Decoder) (w : World) : Outcome (AjmMp3Decoder * World) :=
  '(w1, c1) ← match c self with
              | Some _ =>
                  '(w', c') ← avcodec_free_context w (c self);
                  w'' ← av_free w' c';
                  Ret (w'', c')
              | None => Ret (w, c self)
              end;
  match avcodec_alloc_context3 (dom (codec_heap w1)) with
  | None => Abort CouldNotAllocate
  | Some (h, fresh_ctx) =>
      let w2 := log (set_codec_heap w1 (<[h := fresh_ctx]> (codec_heap w1))) (EvAllocCodec h) in
      let '(ctx, ret) := avcodec_open2 fresh_ctx in
      let w3 := set_codec_heap w2 (<[h := ctx]> (codec_heap w2)) in
      if ret <? 0 then Abort CouldNotOpen
      else Ret (mkDecoder (Some h) (parser self) 0 0 (file self), w3)
  end.

(** The constructor (lines 54-60).  Before the body runs [c] is null and
    the counters are zero (their default member initialisers). *)
Definition AjmMp3Decoder_new (w : World) : Outcome (AjmMp3Decoder * World) :=
  if negb avcodec_find_decoder then Abort CodecNotFound
  else match av_parser_init with
       | None => Abort ParserNotFound
       | Some p => Reset (mkDecoder None p 0 0 []) w
       end.

(** ** [ConvertAudioFrame] (lines 31-52) *)

(** The result is the new state of the world and the pointer returned:
    [None] for the [nullptr] of a failed conversion.  [av_frame_clone] shares
    the data of [frame]; when [swr_alloc_set_opts2] cannot allocate,
    [swr_context] stays null and the following calls use a null pointer. *)
Definition ConvertAudioFrame (w : World) (frame : AVFrame) : Outcome (World * option AVFrame) :=
  let pcm16_frame :=
    mkAVFrame AV_SAMPLE_FMT_S16 (av_ch_layout frame) (av_nb_samples frame)
              (av_sample_rate frame) (av_data0 frame) in
  w1 ← match swr_context w with
       | Some h => swr_free w h
       | None => Ret w
       end;
  let opts := mkSwrOpts (av_ch_layout pcm16_frame) AV_SAMPLE_FMT_S16 (av_sample_rate frame)
                        (av_ch_layout frame) (av_format frame) (av_sample_rate frame) in
  match swr_alloc (dom (swr_heap w1)) with
  | None => Crash
  | Some h =>
      let w2 := mkWorld (codec_heap w1) (Some h) (<[h := opts]> (swr_heap w1)) (mem w1)
                        (trace w1 ++ [EvAllocSwr h]) in
      match swr_heap w2 !! h with
      | None => Crash
      | Some o =>
          let '(res, out) := swr_convert_frame o pcm16_frame frame in
          if res <? 0 then Ret (w2, None) else Ret (w2, Some out)
      end
  end.

(** ** [Decode] (lines 80-126) *)

(** [memcpy(dst, src, n)] into the memory of the world: [n] bytes of [src]
    land at [dst], [dst + 1], ...; a source shorter than [n] is read past
    its end.  Nothing checks that the bytes fit the destination. *)
Fixpoint write_bytes (m : gmap Z byte) (dst : Z) (bs : list byte) : gmap Z byte :=
  match bs with
  | [] => m
  | b :: bs' => write_bytes (<[dst := b]> m) (dst + 1) bs'
  end.

Definition memcpy (m : gmap Z byte) (dst : Z) (src : list byte) (n : Z)
  : Outcome (gmap Z byte) :=
  if Z.of_nat (length src) <? n then Crash
  else Ret (write_bytes m dst (take (Z.to_nat n) src)).

(** The variables of a running call: the object, the world, the two cursors
    with the sizes left, and the blocks delivered so far (kept beside the
    state for the statements below; the code does not have it). *)
Record DecodeSt := mkDecodeSt {
  ds_self : AjmMp3Decoder;
  ds_world : World;
  ds_buf : list byte;
  ds_in_size : Z;
  ds_out_buf : Z;
  ds_out_size : Z;
  ds_delivered : list AVFrame
}.

(** The two loop heads: the outer [while] of line 83 and the drain loop of
    line 99. *)
Inductive LoopHead := AtOuter | AtDrain.

Definition the_context (self : AjmMp3Decoder) (w : World) : option (positive * CodecSt) :=
  h ← c self; ctx ← codec_heap w !! h; Some (h, ctx).

(** Bytes of a delivered block (line 110): [int * int], converted to
    [size_t] for the product with [sizeof(u16)]. *)
Definition block_size (frame : AVFrame) : Z :=
  wrap 64 (nb_channels (av_ch_layout frame) * av_nb_samples frame * 2).

(** Lines 84-96: one pass of the outer loop up to the drain loop.  The
    splitter sees the [in_size] bytes at [buf]. *)
Definition parse_and_send (st : DecodeSt) : Outcome (LoopHead * DecodeSt) :=
  let self := ds_self st in
  let w := ds_world st in
  match the_context self w with
  | None => Crash
  | Some (h, ctx) =>
      let '(parser', ctx1, ret, data) :=
        av_parser_parse2 (parser self) ctx (take (Z.to_nat (ds_in_size st)) (ds_buf st)) in
      if ret <? 0 then Abort ErrorWhileParsing
      else
        let self1 := mkDecoder (c self) parser' (decoded_samples self) (num_frames self)
                               (file self) in
        let buf1 := drop (Z.to_nat ret) (ds_buf st) in
        let in_size1 := wrap 32 (ds_in_size st - ret) in
        let continue_with ctx' pc :=
          Ret (pc, mkDecodeSt self1 (set_codec_heap w (<[h := ctx']> (codec_heap w)))
                              buf1 in_size1 (ds_out_buf st) (ds_out_size st)
                              (ds_delivered st)) in
        if Z.of_nat (length data) =? 0 then continue_with ctx1 AtOuter
        else
          let pkt := mkAVPacket data (parser_pts parser') (parser_dts parser')
                                (if parser_key_frame parser' =? 1 then AV_PKT_FLAG_KEY else 0) in
          let '(ctx2, ret2) := avcodec_send_packet ctx1 pkt in
          if ret2 <? 0 then Abort ErrorSubmitting
          else continue_with ctx2 AtDrain
  end.

(** Lines 100-117: one pass of the drain loop.  Its condition [ret >= 0]
    holds whenever the head is reached: after a submission that did not
    fail, and after a frame was received. *)
Definition receive_and_deliver (st : DecodeSt) : Outcome (LoopHead * DecodeSt) :=
  let self := ds_self st in
  let w := ds_world st in
  match the_context self w with
  | None => Crash
  | Some (h, ctx) =>
      let '(ctx1, ret, received) := avcodec_receive_frame ctx in
      let w1 := set_codec_heap w (<[h := ctx1]> (codec_heap w)) in
      if (ret =? AVERROR_EAGAIN) || (ret =? AVERROR_EOF) then
        Ret (AtOuter, mkDecodeSt self w1 (ds_buf st) (ds_in_size st) (ds_out_buf st)
                                 (ds_out_size st) (ds_delivered st))
      else if ret <? 0 then Abort ErrorDuringDecoding
      else
        '(w2, converted) ← (if av_format received =? AV_SAMPLE_FMT_S16
                            then Ret (w1, Some received)
                            else ConvertAudioFrame w1 received);
        match converted with
        | None => Crash
        | Some frame =>
            let size := block_size frame in
            m ← memcpy (mem w2) (ds_out_buf st) (av_data0 frame) size;
            let w3 := mkWorld (codec_heap w2) (swr_context w2) (swr_heap w2) m (trace w2) in
            let self' :=
              mkDecoder (c self) (parser self)
                        (wrap counter_bits (decoded_samples self + av_nb_samples frame))
                        (wrap counter_bits (num_frames self + 1))
                        (file self ++ take (Z.to_nat size) (av_data0 frame)) in
            Ret (AtDrain,
                 mkDecodeSt self' w3 (ds_buf st) (ds_in_size st)
                            (ds_out_buf st + size) (wrap 32 (ds_out_size st - size))
                            (ds_delivered st ++ [frame]))
        end
  end.

(** The two loops.  One unit of fuel pays for one pass of either loop; the
    test of the outer loop costs nothing.  The packet of line 82 is taken to
    be allocated. *)
Fixpoint Decode_loop (fuel : nat) (pc : LoopHead) (st : DecodeSt) : Outcome DecodeSt :=
  match pc with
  | AtOuter =>
      if (0 <? ds_in_size st) && (0 <? ds_out_size st) then
        match fuel with
        | O => OutOfFuel
        | S fuel' => '(pc', st') ← parse_and_send st; Decode_loop fuel' pc' st'
        end
      else Ret st
  | AtDrain =>
      match fuel with
      | O => OutOfFuel
      | S fuel' => '(pc', st') ← receive_and_deliver st; Decode_loop fuel' pc' st'
      end
  end.

(** What a call leaves behind: the object, the world, the record behind
    [output], the returned pair, and the blocks delivered. *)
Record DecodeResult := mkDecodeResult {
  r_self : AjmMp3Decoder;
  r_world : World;
  r_output : AjmJobOutput;
  r_in_size : Z;
  r_out_size : Z;
  r_delivered : list AVFrame
}.

(** Lines 122-124: the record behind [output->p_mframe], when there is one,
    has [n] added to its frame counter.  The type of that counter is declared
    in a header that is not at hand; it is given the width of the session
    counters. *)
Definition report_frames (output : AjmJobOutput) (n : Z) : AjmJobOutput :=
  match p_mframe output with
  | Some mframe => mkJobOutput (Some (mkMFrame (wrap counter_bits (mframe_num_frames mframe + n))))
  | None => output
  end.

Definition Decode (fuel : nat) (self : AjmMp3Decoder) (w : World)
    (buf : list byte) (in_size : Z) (out_buf : Z) (out_size : Z) (output : AjmJobOutput)
  : Outcome DecodeResult :=
  st ← Decode_loop fuel AtOuter (mkDecodeSt self w buf in_size out_buf out_size []);
  Ret (mkDecodeResult (ds_self st) (ds_world st)
                      (report_frames output (num_frames (ds_self st)))
                      (ds_in_size st) (ds_out_size st) (ds_delivered st)).

End Decoder.

(** ** A small FFmpeg for examples *)

(** A splitter that cuts the stream into units of [unit_len] bytes (of one
    byte at least) and keeps an incomplete unit until the rest arrives, and
    an engine that turns each unit into one stereo block of [samples] samples
    per channel in format [fmt], filled with the first byte of the unit; the
    resampler keeps the bytes a 16-bit block needs.  Allocation never fails.
    With 417 bytes a unit and 1152 samples a block these are the sizes of a
    128 kbit/s, 44.1 kHz stream; the runs below use 4 bytes and 2 samples. *)
Definition example_frame (samples : nat) (fmt : Z) (pkt : AVPacket) : AVFrame :=
  mkAVFrame fmt (mkLayout 2 3) (Z.of_nat samples) 44100
            (repeat (hd x00 (pkt_data pkt)) (4 * samples)).

Definition example_parse (unit_len : nat) (held : list byte) (window : list byte)
  : list byte * Z * list byte :=
  let need := Nat.max 1 (unit_len - length held) in
  if (length window <? need)%nat
  then (held ++ window, Z.of_nat (length window), [])
  else ([], Z.of_nat need, held ++ take need window).

Definition example_receive (ready : list AVFrame) : list AVFrame * Z * AVFrame :=
  match ready with
  | [] => ([], AVERROR_EAGAIN, mkAVFrame 0 (mkLayout 0 0) 0 0 [])
  | frame :: rest => (rest, 0, frame)
  end.

Definition example_convert (o : SwrOpts) (out inp : AVFrame) : Z * AVFrame :=
  (0, mkAVFrame (out_sample_fmt o) (out_ch_layout o) (av_nb_samples inp) (out_sample_rate o)
                (take (Z.to_nat (nb_channels (out_ch_layout o) * av_nb_samples inp * 2))
                      (av_data0 inp))).

Definition example_ffmpeg (unit_len samples : nat) (fmt : Z) : FFmpeg := {|
  ParserSt := list byte;
  CodecSt := list AVFrame;
  avcodec_find_decoder := true;
  av_parser_init := Some [];
  parser_pts := fun _ => 0;
  parser_dts := fun _ => 0;
  parser_key_frame := fun _ => 1;
  avcodec_alloc_context3 := fun live => Some (fresh live, []);
  avcodec_open2 := fun ctx => (ctx, 0);
  av_parser_parse2 := fun held ctx window =>
    let '(held', used, data) := example_parse unit_len held window in
    (held', ctx, used, data);
  avcodec_send_packet := fun ready pkt => (ready ++ [example_frame samples fmt pkt], 0);
  avcodec_receive_frame := example_receive;
  swr_alloc := fun live => Some (fresh live);
  swr_convert_frame := example_convert
|}.

(** The same with a splitter that uses no byte and yields no unit. *)
Definition stalled_ffmpeg : FFmpeg := {|
  ParserSt := list byte;
  CodecSt := list AVFrame;
  avcodec_find_decoder := true;
  av_parser_init := Some [];
  parser_pts := fun _ => 0;
  parser_dts := fun _ => 0;
  parser_key_frame := fun _ => 1;
  avcodec_alloc_context3 := fun live => Some (fresh live, []);
  avcodec_open2 := fun ctx => (ctx, 0);
  av_parser_parse2 := fun held ctx window => (held, ctx, 0, []);
  avcodec_send_packet := fun ready pkt =>
    (ready ++ [example_frame 2 AV_SAMPLE_FMT_S16 pkt], 0);
  avcodec_receive_frame := example_receive;
  swr_alloc := fun live => Some (fresh live);
  swr_convert_frame := example_convert
|}.

(** The world before anything is allocated. *)
Definition empty_world {F : FFmpeg} : World := mkWorld ∅ None ∅ ∅ [].

(** The two examples used below: blocks that are 16-bit PCM already, and
    planar float blocks that go through [ConvertAudioFrame]. *)
Definition S16_ffmpeg : FFmpeg := example_ffmpeg 4 2 AV_SAMPLE_FMT_S16.
Definition FLTP_ffmpeg : FFmpeg := example_ffmpeg 4 2 AV_SAMPLE_FMT_FLTP.

(** What the constructor leaves in the empty world: one open context at
    address 1, an empty splitter, zero counters. *)
Definition S16_decoder : @AjmMp3Decoder S16_ffmpeg :=
  @mkDecoder S16_ffmpeg (Some 1%positive) [] 0 0 [].

Definition S16_world : @World S16_ffmpeg :=
  @mkWorld S16_ffmpeg {[1%positive := []]} None ∅ ∅ [EvAllocCodec 1].

Definition stalled_decoder : @AjmMp3Decoder stalled_ffmpeg :=
  @mkDecoder stalled_ffmpeg (Some 1%positive) [] 0 0 [].

Definition stalled_world : @World stalled_ffmpeg :=
  @mkWorld stalled_ffmpeg {[1%positive := []]} None ∅ ∅ [EvAllocCodec 1].

(** The value a call returned, or [default] when it did not return. *)
Definition returned_or {A} (default : A) (o : Outcome A) : A :=
  match o with
  | Ret a => a
  | _ => default
  end.

(** A call on the first example: two units, an output buffer of 12 bytes at
    address 0, no job record. *)
Definition two_units_call : Outcome (@DecodeResult S16_ffmpeg) :=
  Decode (F := S16_ffmpeg) 8 S16_decoder S16_world
         [x01; x01; x01; x01; x02; x02; x02; x02] 8 0 12 (mkJobOutput None).

Definition two_units_result : @DecodeResult S16_ffmpeg :=
  returned_or (mkDecodeResult S16_decoder S16_world (mkJobOutput None) 0 0 []) two_units_call.

(** The state at the head of the drain loop when the second block of that
    call is about to be received: 4 bytes are left at address 8. *)
Definition second_block_state : @DecodeSt S16_ffmpeg :=
  @mkDecodeSt S16_ffmpeg S16_decoder
    (@mkWorld S16_ffmpeg {[1%positive := [example_frame 2 AV_SAMPLE_FMT_S16
                                            (mkAVPacket [x02; x02; x02; x02] 0 0 1)]]}
              None ∅ ∅ [EvAllocCodec 1])
    [] 0 8 4 [].

Definition second_block_delivered : @DecodeSt S16_ffmpeg :=
  snd (returned_or (AtDrain, second_block_state) (receive_and_deliver second_block_state)).

(** Two calls in a row that share one job record, one unit each, with room
    for both blocks. *)
Definition first_call : Outcome (@DecodeResult S16_ffmpeg) :=
  Decode (F := S16_ffmpeg) 8 S16_decoder S16_world
         [x01; x01; x01; x01] 4 0 64 (mkJobOutput (Some (mkMFrame 0))).

Definition first_result : @DecodeResult S16_ffmpeg :=
  returned_or (mkDecodeResult S16_decoder S16_world (mkJobOutput None) 0 0 []) first_call.

Definition second_call : Outcome (@DecodeResult S16_ffmpeg) :=
  Decode (F := S16_ffmpeg) 8 (r_self first_result) (r_world first_result)
         [x02; x02; x02; x02] 4 8 56 (r_output first_result).

Definition second_result : @DecodeResult S16_ffmpeg :=
  returned_or (mkDecodeResult S16_decoder S16_world (mkJobOutput None) 0 0 []) second_call.

(** The state of a call on the stalled example with one byte of input and
    one byte of room. *)
Definition stalled_state : @DecodeSt stalled_ffmpeg :=
  @mkDecodeSt stalled_ffmpeg stalled_decoder stalled_world [x01] 1 0 1 [].

(** Two objects built one after the other in the empty world of the second
    example, and a call on each: first on the one with context 1, then, in
    the world that call leaves, on the one with context 2. *)
Definition session_A : @AjmMp3Decoder FLTP_ffmpeg :=
  @mkDecoder FLTP_ffmpeg (Some 1%positive) [] 0 0 [].

Definition session_B : @AjmMp3Decoder FLTP_ffmpeg :=
  @mkDecoder FLTP_ffmpeg (Some 2%positive) [] 0 0 [].

Definition two_sessions_world : @World FLTP_ffmpeg :=
  @mkWorld FLTP_ffmpeg {[1%positive := []; 2%positive := []]} None ∅ ∅
           [EvAllocCodec 1; EvAllocCodec 2].

Definition call_A : Outcome (@DecodeResult FLTP_ffmpeg) :=
  Decode (F := FLTP_ffmpeg) 8 session_A two_sessions_world
         [x01; x01; x01; x01] 4 0 64 (mkJobOutput None).

Definition result_A : @DecodeResult FLTP_ffmpeg :=
  returned_or (mkDecodeResult session_A two_sessions_world (mkJobOutput None) 0 0 []) call_A.

Definition call_B_after_A : Outcome (@DecodeResult FLTP_ffmpeg) :=
  Decode (F := FLTP_ffmpeg) 8 session_B (r_world result_A)
         [x02; x02; x02; x02] 4 64 64 (mkJobOutput None).

Definition result_B_after_A : @DecodeResult FLTP_ffmpeg :=
  returned_or (mkDecodeResult session_B two_sessions_world (mkJobOutput None) 0 0 [])
              call_B_after_A.

(** ** Notions the statements use *)

Section Notions.
Context {F : FFmpeg}.

(** Samples per channel in a list of delivered blocks. *)
Definition total_samples (frames : list AVFrame) : Z :=
  foldr (fun frame n => av_nb_samples frame + n) 0 frames.

(** Both counters hold a value of their type. *)
Definition counters_in_range (self : AjmMp3Decoder) : Prop :=
  0 <= decoded_samples self < 2 ^ counter_bits /\
  0 <= num_frames self < 2 ^ counter_bits.

(** A sequence of [Decode] calls on one object, with any arguments and no
    other call in between; the index lists the blocks delivered, in order. *)
Inductive decode_calls : AjmMp3Decoder -> World -> list AVFrame -> AjmMp3Decoder -> World -> Prop :=
| calls_none self w : decode_calls self w [] self w
| calls_next self w fuel buf in_size out_buf out_size output r frames self' w' :
    Decode fuel self w buf in_size out_buf out_size output = Ret r ->
    decode_calls (r_self r) (r_world r) frames self' w' ->
    decode_calls self w (r_delivered r ++ frames) self' w'.

(** The states an object and its world can be in: after the constructor,
    and after any [Reset] or [Decode] that returned. *)
Inductive reachable : AjmMp3Decoder -> World -> Prop :=
| reach_new w0 self w :
    AjmMp3Decoder_new w0 = Ret (self, w) -> reachable self w
| reach_Reset self w self' w' :
    reachable self w -> Reset self w = Ret (self', w') -> reachable self' w'
| reach_Decode self w fuel buf in_size out_buf out_size output r :
    reachable self w ->
    Decode fuel self w buf in_size out_buf out_size output = Ret r ->
    reachable (r_self r) (r_world r).

(** The object holds a context, and that context is live. *)
Definition owns_context (self : AjmMp3Decoder) (w : World) : Prop :=
  exists h, c self = Some h /\ is_Some (codec_heap w !! h).

(** [avcodec_alloc_context3] returns an address not in use, and
    [avcodec_open2] opens what it returned. *)
Definition allocation_succeeds : Prop :=
  forall live, exists h ctx,
    avcodec_alloc_context3 live = Some (h, ctx) /\ (h ∉ live) /\ 0 <= snd (avcodec_open2 ctx).

(** [swr_alloc_set_opts2] never returns without a context. *)
Definition swr_allocation_succeeds : Prop :=
  forall live, is_Some (swr_alloc live).

(** The splitter moves forward: fed a non-empty window it uses at least one
    of its bytes, and no more than it was given. *)
Definition splitter_progress : Prop :=
  forall p ctx window,
    window <> [] ->
    1 <= snd (fst (av_parser_parse2 p ctx window)) <= Z.of_nat (length window).

(** The engine runs dry: from [ctx] on, [avcodec_receive_frame] reports a
    status other than a frame after finitely many frames. *)
Inductive drain_ends : CodecSt -> Prop :=
| drain_ends_intro ctx :
    (0 <= snd (fst (avcodec_receive_frame ctx)) ->
     drain_ends (fst (fst (avcodec_receive_frame ctx)))) ->
    drain_ends ctx.

(** The variable [swr_context] is null or points to a live context. *)
Definition swr_context_live (w : World) : Prop :=
  match swr_context w with
  | Some h => is_Some (swr_heap w !! h)
  | None => True
  end.

(** Two outcomes of the same kind, with returned values related by [R]. *)
Definition outcomes_agree {A} (R : A -> A -> Prop) (o1 o2 : Outcome A) : Prop :=
  match o1, o2 with
  | Ret a1, Ret a2 => R a1 a2
  | Abort site1, Abort site2 => site1 = site2
  | Crash, Crash => True
  | OutOfFuel, OutOfFuel => True
  | _, _ => False
  end.

(** What a call on the object with context [h] hands back: the object with
    its counters and the bytes it wrote out ([file]), the job record, the two
    sizes, the blocks, and the state of its own context. *)
Definition same_result (h : positive) (r1 r2 : DecodeResult) : Prop :=
  r_self r1 = r_self r2 /\ r_output r1 = r_output r2 /\
  r_in_size r1 = r_in_size r2 /\ r_out_size r1 = r_out_size r2 /\
  r_delivered r1 = r_delivered r2 /\
  codec_heap (r_world r1) !! h = codec_heap (r_world r2) !! h.

(** The loops end from the head [pc] in the state [st]: with fuel enough
    they return, fail an assertion or crash. *)
Definition terminates (pc : LoopHead) (st : DecodeSt) : Prop :=
  exists fuel, Decode_loop fuel pc st <> OutOfFuel.

(** The part of the world a call on the object with context [h] depends on:
    that context.  [swr_context] must be usable, whatever it points to. *)
Definition world_sim (h : positive) (w1 w2 : World) : Prop :=
  codec_heap w1 !! h = codec_heap w2 !! h /\ swr_context_live w1 /\ swr_context_live w2.

Definition state_sim (h : positive) (st1 st2 : DecodeSt) : Prop :=
  c (ds_self st1) = Some h /\
  ds_self st1 = ds_self st2 /\ ds_buf st1 = ds_buf st2 /\
  ds_in_size st1 = ds_in_size st2 /\ ds_out_buf st1 = ds_out_buf st2 /\
  ds_out_size st1 = ds_out_size st2 /\ ds_delivered st1 = ds_delivered st2 /\
  world_sim h (ds_world st1) (ds_world st2).

Definition step_sim (h : positive) (x1 x2 : LoopHead * DecodeSt) : Prop :=
  fst x1 = fst x2 /\ state_sim h (snd x1) (snd x2).

(** What [ConvertAudioFrame] returns once [swr_context] points to the
    context built for [frame], in the world [w'] this leaves. *)
Definition convert_in (w' : World) (frame : AVFrame) : Outcome (World * option AVFrame) :=
  let opts := mkSwrOpts (av_ch_layout frame) AV_SAMPLE_FMT_S16 (av_sample_rate frame)
                        (av_ch_layout frame) (av_format frame) (av_sample_rate frame) in
  let pcm16_frame := mkAVFrame AV_SAMPLE_FMT_S16 (av_ch_layout frame) (av_nb_samples frame)
                               (av_sample_rate frame) (av_data0 frame) in
  if fst (swr_convert_frame opts pcm16_frame frame) <? 0 then Ret (w', None)
  else Ret (w', Some (snd (swr_convert_frame opts pcm16_frame frame))).

End Notions.

(** * Properties *)

(** ** Machine integers *)

Lemma wrap_small bits x : 0 <= x < 2 ^ bits -> wrap bits x = x.
Proof. intros H. unfold wrap. now apply Z.mod_small. Qed.

Lemma wrap_range bits x : 0 <= bits -> 0 <= wrap bits x < 2 ^ bits.
Proof. intros H. unfold wrap. apply Z.mod_pos_bound. now apply Z.pow_pos_nonneg. Qed.


(** ** The header parser against the algorithm of section 4.1 *)

(** The shift-and-mask expressions of the source compute the bit fields the
    specification names.  A byte has 256 values; each equation is checked on
    all of them. *)
Lemma unk_idx_spec b1 : unk_idx b1 = spec_unk_idx (u8 b1).
Proof. destruct b1; reflexivity. Qed.

Lemma version_idx_spec b1 : version_idx b1 = spec_version_idx (u8 b1).
Proof. destruct b1; reflexivity. Qed.

Lemma sr_idx_spec b2 : sr_idx b2 = spec_sr_idx (u8 b2).
Proof. destruct b2; reflexivity. Qed.

Lemma br_idx_spec b2 : br_idx b2 = spec_br_idx (u8 b2).
Proof. destruct b2; reflexivity. Qed.

Lemma padding_bit_spec b2 : padding_bit b2 = spec_padding_bit (u8 b2).
Proof. destruct b2; reflexivity. Qed.

Lemma spec_byte1_ranges (b1 : byte) :
  0 <= spec_unk_idx (u8 b1) <= 1 /\ 0 <= spec_version_idx (u8 b1) <= 3.
Proof. destruct b1; vm_compute; repeat split; discriminate. Qed.

Lemma spec_byte2_ranges (b2 : byte) :
  0 <= spec_sr_idx (u8 b2) <= 3 /\ 0 <= spec_br_idx (u8 b2) <= 15 /\
  0 <= spec_padding_bit (u8 b2) <= 1.
Proof. destruct b2; vm_compute; repeat split; discriminate. Qed.

(** The table reads, for indices inside the tables: the entry exists, and
    the bounds are those of the constants. *)
Lemma SamplerateTable_at v s :
  0 <= v < 3 -> 0 <= s < 3 ->
  exists row sr, at_index SamplerateTable v = Some row /\
                 at_index row s = Some sr /\ 0 < sr < 2 ^ 16.
Proof.
  intros Hv Hs.
  assert (v = 0 \/ v = 1 \/ v = 2) as [-> | [-> | ->]] by lia;
    assert (s = 0 \/ s = 1 \/ s = 2) as [-> | [-> | ->]] by lia;
    do 2 eexists; (split; [reflexivity | split; [reflexivity | lia]]).
Qed.

Lemma BitrateTable_at (one : bool) r :
  0 <= r < 15 ->
  exists row br, at_index BitrateTable (Z.b2z one) = Some row /\
                 at_index row r = Some br /\ 0 <= br <= 0x140.
Proof.
  intros Hr.
  assert (Hcases : In r (map Z.of_nat (seq 0 15)))
    by (apply in_map_iff; exists (Z.to_nat r); split; [lia | apply in_seq; lia]).
  cbn in Hcases.
  destruct one;
    repeat (destruct Hcases as [<- | Hcases];
            [do 2 eexists; (split; [reflexivity | split; [reflexivity | lia]]) |]);
    contradiction.
Qed.

Lemma UnkTable_at u :
  0 <= u <= 1 -> exists unk, at_index UnkTable u = Some unk /\ 0 < unk <= 0x90.
Proof.
  intros Hu. assert (u = 0 \/ u = 1) as [-> | ->] by lia;
    eexists; (split; [reflexivity | lia]).
Qed.

Lemma quot_range a b : 0 <= a -> 0 < b -> 0 <= Z.quot a b <= a.
Proof.
  intros Ha Hb. rewrite Z.quot_div_nonneg by lia. split.
  - apply Z.div_pos; lia.
  - apply Z.div_le_upper_bound; nia.
Qed.

(** On a buffer that holds the four header bytes, with indices inside the
    tables, the parser returns 0 and the record of the algorithm. *)
Lemma ParseMp3Header_in_range (b0 b1 b2 b3 : byte) (rest : list byte)
    (stream_size parse_ofl : Z) :
  indices_in_range (u8 b1) (u8 b2) ->
  exists f,
    spec_ParseFrameHeader (u8 b1) (u8 b2) (u8 b3) = Some f /\
    ParseMp3Header (b0 :: b1 :: b2 :: b3 :: rest) stream_size parse_ofl = Some (0, f).
Proof.
  intros (Hv & Hs & Hb).
  destruct (spec_byte1_ranges b1) as (Hu & Hv').
  destruct (spec_byte2_ranges b2) as (Hs' & Hb' & Hp).
  destruct (SamplerateTable_at (spec_version_idx (u8 b1)) (spec_sr_idx (u8 b2)))
    as (srow & sr & Hsrow & Hsr & Hsr_b); [lia | lia |].
  destruct (BitrateTable_at (negb (spec_version_idx (u8 b1) =? 1)) (spec_br_idx (u8 b2)))
    as (brow & br & Hbrow & Hbr & Hbr_b); [lia |].
  destruct (UnkTable_at (spec_unk_idx (u8 b1))) as (unk & Hunk & Hunk_b); [lia |].
  assert (Hrow : (if spec_version_idx (u8 b1) =? 1 then 0 else 1)
                 = Z.b2z (negb (spec_version_idx (u8 b1) =? 1)))
    by (now destruct (spec_version_idx (u8 b1) =? 1)).
  assert (Hq := quot_range (unk * (br * 1000)) sr).
  unfold ParseMp3Header, spec_ParseFrameHeader, cdiv, spec_frame_size.
  change ((b0 :: b1 :: b2 :: b3 :: rest) !! 1%nat) with (Some b1).
  change ((b0 :: b1 :: b2 :: b3 :: rest) !! 2%nat) with (Some b2).
  change ((b0 :: b1 :: b2 :: b3 :: rest) !! 3%nat) with (Some b3).
  cbn [mbind option_bind].
  rewrite unk_idx_spec, version_idx_spec, sr_idx_spec, br_idx_spec, padding_bit_spec, Hrow.
  rewrite Hunk, Hsrow, Hbrow. cbn [mbind option_bind]. rewrite Hsr, Hbr. cbn [mbind option_bind].
  rewrite !wrap_small by (change (2 ^ 32) with 4294967296; rewrite ?wrap_small; nia).
  rewrite (proj2 (Z.eqb_neq sr 0)) by lia. cbn [mbind option_bind].
  rewrite !wrap_small by (change (2 ^ 32) with 4294967296; nia).
  eexists; split; [reflexivity|].
  destruct (parse_ofl =? 0); destruct (u8 b3 <? 192); reflexivity.
Qed.

(** Neither [parse_ofl] nor [stream_size] enters the result, on any buffer. *)
Lemma ParseMp3Header_ignores_flags buf stream_size parse_ofl stream_size' parse_ofl' :
  ParseMp3Header buf stream_size parse_ofl = ParseMp3Header buf stream_size' parse_ofl'.
Proof.
  unfold ParseMp3Header.
  repeat (apply option_bind_ext_fun; intros ?).
  now destruct (parse_ofl =? 0), (parse_ofl' =? 0).
Qed.

(** C1: on every four-byte header whose derived indices lie inside the
    tables, [ParseMp3Header] returns status 0 and writes exactly the record
    that the nine steps of section 4.1 compute from bytes 1 to 3 (bit 3 of
    byte 1, bits 3..4 of byte 1 XOR 2, bits 2..3 and 4..7 of byte 2, the two
    table reads, the 0xC0 threshold on byte 3, the truncating division, the
    factor 8 and the zero delay); no 32-bit store wraps.  The division
    truncates: base unit 0x48, 128000 bit/s, 44100 Hz and no padding give 208. *)
Theorem ParseMp3Header_computes_spec :
  (forall (b0 b1 b2 b3 : byte) (stream_size parse_ofl : Z),
      indices_in_range (u8 b1) (u8 b2) ->
      exists f,
        spec_ParseFrameHeader (u8 b1) (u8 b2) (u8 b3) = Some f /\
        ParseMp3Header [b0; b1; b2; b3] stream_size parse_ofl = Some (0, f)) /\
  spec_frame_size 0x48 128000 44100 0 = 208.
Proof.
  split; [|reflexivity].
  intros b0 b1 b2 b3 stream_size parse_ofl Hrange.
  now apply ParseMp3Header_in_range.
Qed.

(** The header of a 128 kbit/s, 44.1 kHz stereo frame: FF FB 90 00. *)
Lemma ParseMp3Header_computes_spec_witness :
  indices_in_range (u8 xfb) (u8 x90) /\
  exists f,
    spec_ParseFrameHeader (u8 xfb) (u8 x90) (u8 x00) = Some f /\
    ParseMp3Header [xff; xfb; x90; x00] 417 0 = Some (0, f).
Proof.
  assert (H : indices_in_range (u8 xfb) (u8 x90)) by (vm_compute; repeat split).
  split; [exact H|].
  exact (proj1 ParseMp3Header_computes_spec xff xfb x90 x00 417 0 H).
Defined.

(** What that header parses to: 44100 Hz, 128000 bit/s, two channels, 417
    bytes per frame, 1152 samples per channel. *)
Example ParseMp3Header_FFFB9000 :
  ParseMp3Header [xff; xfb; x90; x00] 417 0
  = Some (0, mkFrame 417 2 1152 128000 44100 0).
Proof. reflexivity. Qed.

(** The base unit 0x48 goes with rows 0 and 2 of the sample-rate table only:
    bit 3 of byte 1 is also the low bit of the version field, so the 44100 Hz
    of row 1 always come with the base unit 0x90. *)
Lemma unk_idx_of_version_row_1 (b1 : byte) : version_idx b1 = 1 -> unk_idx b1 = 1.
Proof. destruct b1; vm_compute; congruence. Qed.

Lemma unk_idx_of_version_row_1_witness : version_idx xfb = 1 /\ unk_idx xfb = 1.
Proof. split; [reflexivity | exact (unk_idx_of_version_row_1 xfb eq_refl)]. Defined.

(** C7: some four-byte headers send the parser outside its tables, and
    nothing is checked before the read.  With bits 3..4 of byte 1 equal to 01
    (FF EB 90 00) [version_idx] is 3, one past the three rows of
    [SamplerateTable]; with bits 4..7 of byte 2 all set (FF FB F0 00)
    [br_idx] is 15, one past the fifteen entries of a [BitrateTable] row.
    The table read has no entry and the call has no defined result. *)
Theorem ParseMp3Header_reads_outside_tables :
  (version_idx xeb = 3 /\ length SamplerateTable = 3%nat /\
   at_index SamplerateTable (version_idx xeb) = None /\
   forall stream_size parse_ofl,
     ParseMp3Header [xff; xeb; x90; x00] stream_size parse_ofl = None) /\
  (br_idx xf0 = 15 /\ Forall (fun row => length row = 15%nat) BitrateTable /\
   Forall (fun row => at_index row (br_idx xf0) = None) BitrateTable /\
   forall stream_size parse_ofl,
     ParseMp3Header [xff; xfb; xf0; x00] stream_size parse_ofl = None).
Proof.
  split.
  - repeat split; try reflexivity.
  - repeat split; try reflexivity; repeat constructor.
Qed.

(** C10 as stated fails: on the header FF EB 90 00 the parser reads row 3 of
    a table of three rows before it reaches either [return 0]. *)
Lemma ParseMp3Header_not_always_0 :
  ~ (forall buf stream_size parse_ofl,
        exists f, ParseMp3Header buf stream_size parse_ofl = Some (0, f)).
Proof.
  intros H. destruct (H [xff; xeb; x90; x00] 4 0) as [f Hf]. discriminate Hf.
Qed.

(** C10, amended: whenever [ParseMp3Header] returns, it returns 0; on every
    buffer, [parse_ofl] (and [stream_size]) change neither whether it returns
    nor the status nor any field written; and it does return, with status 0,
    on every buffer that holds the four header bytes with indices inside the
    tables. *)
Theorem ParseMp3Header_status_is_0 :
  (forall buf stream_size parse_ofl status f,
      ParseMp3Header buf stream_size parse_ofl = Some (status, f) -> status = 0) /\
  (forall buf stream_size parse_ofl parse_ofl',
      ParseMp3Header buf stream_size parse_ofl = ParseMp3Header buf stream_size parse_ofl') /\
  (forall b0 b1 b2 b3 rest stream_size,
      indices_in_range (u8 b1) (u8 b2) ->
      exists f, forall parse_ofl,
        ParseMp3Header (b0 :: b1 :: b2 :: b3 :: rest) stream_size parse_ofl = Some (0, f)).
Proof.
  split; [|split].
  - intros buf stream_size parse_ofl status f. unfold ParseMp3Header.
    intros H. repeat (apply bind_Some in H as (? & _ & H)).
    destruct (parse_ofl =? 0); congruence.
  - intros. apply ParseMp3Header_ignores_flags.
  - intros b0 b1 b2 b3 rest stream_size Hrange.
    destruct (ParseMp3Header_in_range b0 b1 b2 b3 rest stream_size 0 Hrange) as (f & _ & Hf).
    exists f. intros parse_ofl. rewrite <- Hf. apply ParseMp3Header_ignores_flags.
Qed.

(** FF FB 90 00 followed by the rest of a frame, with both values of the flag. *)
Lemma ParseMp3Header_status_is_0_witness :
  indices_in_range (u8 xfb) (u8 x90) /\
  exists f, forall parse_ofl,
    ParseMp3Header [xff; xfb; x90; x00; x00; x00] 417 parse_ofl = Some (0, f).
Proof.
  assert (H : indices_in_range (u8 xfb) (u8 x90)) by (vm_compute; repeat split).
  split; [exact H|].
  exact (proj2 (proj2 ParseMp3Header_status_is_0) xff xfb x90 x00 [x00; x00] 417 H).
Defined.

(** ** The decode loop, step by step *)

Section DecodeFacts.
Context {F : FFmpeg}.

Lemma ConvertAudioFrame_inv w frame w2 converted :
  ConvertAudioFrame w frame = Ret (w2, converted) ->
  codec_heap w2 = codec_heap w /\ mem w2 = mem w /\ swr_context_live w2.
Proof.
  unfold ConvertAudioFrame, swr_context_live. intros H.
  destruct (swr_context w) as [h0|] eqn:Hctx; cbn [mbind Outcome_bind] in H.
  - unfold swr_free in H. destruct (swr_heap w !! h0); [|discriminate].
    cbn [mbind Outcome_bind swr_heap codec_heap mem trace] in H.
    destruct (swr_alloc _) as [h|]; [|discriminate].
    cbn [swr_heap] in H. rewrite lookup_insert_eq in H.
    destruct (swr_convert_frame _ _ _) as [res out].
    destruct (res <? 0); inversion H; subst; cbn; rewrite lookup_insert_eq; eauto.
  - destruct (swr_alloc _) as [h|]; [|discriminate].
    cbn [swr_heap] in H. rewrite lookup_insert_eq in H.
    destruct (swr_convert_frame _ _ _) as [res out].
    destruct (res <? 0); inversion H; subst; cbn; rewrite lookup_insert_eq; eauto.
Qed.

(** A pass of the outer loop that returns has read the context of the
    object, used [ret >= 0] bytes, and changed nothing but the splitter, that
    context and the input cursor. *)
Lemma parse_and_send_inv st pc st' :
  parse_and_send st = Ret (pc, st') ->
  exists h ctx parser' ctx1 ret data ctx',
    the_context (ds_self st) (ds_world st) = Some (h, ctx) /\
    av_parser_parse2 (parser (ds_self st)) ctx
                     (take (Z.to_nat (ds_in_size st)) (ds_buf st)) = (parser', ctx1, ret, data) /\
    0 <= ret /\
    st' = mkDecodeSt
            (mkDecoder (c (ds_self st)) parser' (decoded_samples (ds_self st))
                       (num_frames (ds_self st)) (file (ds_self st)))
            (set_codec_heap (ds_world st) (<[h := ctx']> (codec_heap (ds_world st))))
            (drop (Z.to_nat ret) (ds_buf st)) (wrap 32 (ds_in_size st - ret))
            (ds_out_buf st) (ds_out_size st) (ds_delivered st).
Proof.
  unfold parse_and_send. intros H.
  destruct (the_context _ _) as [[h ctx]|]; [|discriminate].
  destruct (av_parser_parse2 _ _ _) as [[[parser' ctx1] ret] data] eqn:Hparse.
  destruct (ret <? 0) eqn:Hret; [discriminate|]. apply Z.ltb_ge in Hret.
  destruct (Z.of_nat (length data) =? 0).
  - inversion H; subst. by exists h, ctx, parser', ctx1, ret, data, ctx1.
  - destruct (avcodec_send_packet _ _) as [ctx2 ret2].
    destruct (ret2 <? 0); [discriminate|].
    inversion H; subst. by exists h, ctx, parser', ctx1, ret, data, ctx2.
Qed.

(** A pass of the drain loop that returns has either found the engine
    empty, and leaves for the outer loop with only the context changed, or
    has delivered one block: copied its bytes, moved the output cursor and
    counted it. *)
Lemma receive_and_deliver_inv st pc st' :
  receive_and_deliver st = Ret (pc, st') ->
  exists h ctx ctx1 ret received,
    the_context (ds_self st) (ds_world st) = Some (h, ctx) /\
    avcodec_receive_frame ctx = (ctx1, ret, received) /\
    let w1 := set_codec_heap (ds_world st) (<[h := ctx1]> (codec_heap (ds_world st))) in
    (pc = AtOuter /\ (ret = AVERROR_EAGAIN \/ ret = AVERROR_EOF) /\
     st' = mkDecodeSt (ds_self st) w1 (ds_buf st) (ds_in_size st) (ds_out_buf st)
                      (ds_out_size st) (ds_delivered st))
    \/
    (pc = AtDrain /\ 0 <= ret /\
     exists w2 frame m,
       (if av_format received =? AV_SAMPLE_FMT_S16 then Ret (w1, Some received)
        else ConvertAudioFrame w1 received) = Ret (w2, Some frame) /\
       memcpy (mem w2) (ds_out_buf st) (av_data0 frame) (block_size frame) = Ret m /\
       st' = mkDecodeSt
               (mkDecoder (c (ds_self st)) (parser (ds_self st))
                  (wrap counter_bits (decoded_samples (ds_self st) + av_nb_samples frame))
                  (wrap counter_bits (num_frames (ds_self st) + 1))
                  (file (ds_self st) ++ take (Z.to_nat (block_size frame)) (av_data0 frame)))
               (mkWorld (codec_heap w2) (swr_context w2) (swr_heap w2) m (trace w2))
               (ds_buf st) (ds_in_size st)
               (ds_out_buf st + block_size frame)
               (wrap 32 (ds_out_size st - block_size frame))
               (ds_delivered st ++ [frame])).
Proof.
  unfold receive_and_deliver. intros H.
  destruct (the_context _ _) as [[h ctx]|]; [|discriminate].
  destruct (avcodec_receive_frame ctx) as [[ctx1 ret] received] eqn:Hrecv.
  exists h, ctx, ctx1, ret, received. do 2 (split; [done|]). cbn zeta.
  destruct ((ret =? AVERROR_EAGAIN) || (ret =? AVERROR_EOF)) eqn:Hstop.
  - left. inversion H; subst. split; [done|]. split; [|done].
    apply orb_true_iff in Hstop as [?%Z.eqb_eq | ?%Z.eqb_eq]; auto.
  - right. destruct (ret <? 0) eqn:Hret; [discriminate|]. apply Z.ltb_ge in Hret.
    destruct (if av_format received =? AV_SAMPLE_FMT_S16 then _ else _)
      as [[w2 [frame|]]| | |] eqn:Hconv; cbn [mbind Outcome_bind] in H; try discriminate.
    destruct (memcpy _ _ _ _) as [m| | |] eqn:Hcpy; cbn [mbind Outcome_bind] in H;
      try discriminate.
    inversion H; subst. split; [done|]. split; [done|]. by exists w2, frame, m.
Qed.

(** Whatever both loop bodies preserve holds when the loops return. *)
Lemma Decode_loop_invariant (P : DecodeSt -> Prop) :
  (forall st pc st', P st -> parse_and_send st = Ret (pc, st') -> P st') ->
  (forall st pc st', P st -> receive_and_deliver st = Ret (pc, st') -> P st') ->
  forall fuel pc st st', P st -> Decode_loop fuel pc st = Ret st' -> P st'.
Proof.
  intros Houter Hdrain. induction fuel as [|fuel IH]; intros pc st st' HP Hrun.
  - destruct pc; cbn in Hrun; [|discriminate].
    destruct (_ && _); [discriminate|]. by inversion Hrun; subst.
  - destruct pc; cbn [Decode_loop] in Hrun.
    + destruct (_ && _).
      * destruct (parse_and_send st) as [[pc' st1]| | |] eqn:Hstep;
          cbn [mbind Outcome_bind] in Hrun; try discriminate. eauto.
      * by inversion Hrun; subst.
    + destruct (receive_and_deliver st) as [[pc' st1]| | |] eqn:Hstep;
        cbn [mbind Outcome_bind] in Hrun; try discriminate. eauto.
Qed.

End DecodeFacts.

(** ** Counters *)

Section Counters.
Context {F : FFmpeg}.

Lemma total_samples_app frames1 frames2 :
  total_samples (frames1 ++ frames2) = total_samples frames1 + total_samples frames2.
Proof.
  unfold total_samples. induction frames1 as [|frame frames1 IH]; cbn; [lia|].
  rewrite IH. lia.
Qed.

Lemma total_samples_nonneg frames :
  Forall (fun frame => 0 <= av_nb_samples frame) frames -> 0 <= total_samples frames.
Proof. unfold total_samples. induction 1; cbn; lia. Qed.

(** The counters after the loops are the counters before plus what was
    delivered, reduced to the width of the counters. *)
Lemma Decode_loop_counts fuel pc st st' :
  Decode_loop fuel pc st = Ret st' ->
  exists frames,
    ds_delivered st' = ds_delivered st ++ frames /\
    wrap counter_bits (num_frames (ds_self st'))
    = wrap counter_bits (num_frames (ds_self st) + Z.of_nat (length frames)) /\
    wrap counter_bits (decoded_samples (ds_self st'))
    = wrap counter_bits (decoded_samples (ds_self st) + total_samples frames).
Proof.
  intros Hrun.
  apply (Decode_loop_invariant
           (fun st1 => exists frames,
                ds_delivered st1 = ds_delivered st ++ frames /\
                wrap counter_bits (num_frames (ds_self st1))
                = wrap counter_bits (num_frames (ds_self st) + Z.of_nat (length frames)) /\
                wrap counter_bits (decoded_samples (ds_self st1))
                = wrap counter_bits (decoded_samples (ds_self st) + total_samples frames)))
    with (4 := Hrun).
  - intros st1 pc1 st2 (frames & Hd & Hn & Hs) Hstep.
    apply parse_and_send_inv in Hstep as (? & ? & ? & ? & ? & ? & ? & _ & _ & _ & ->).
    exists frames. by cbn.
  - intros st1 pc1 st2 (frames & Hd & Hn & Hs) Hstep.
    apply receive_and_deliver_inv in Hstep
      as (h & ctx & ctx1 & ret & received & _ & _ & [(_ & _ & ->) | (_ & _ & Hdel)]).
    + exists frames. by cbn.
    + destruct Hdel as (w2 & frame & m & _ & _ & ->). exists (frames ++ [frame]). cbn.
      rewrite Hd, length_app, total_samples_app, <- app_assoc. split; [done|].
      unfold wrap in *. rewrite !Zmod_mod. cbn [length total_samples foldr].
      split.
      * rewrite <- Zplus_mod_idemp_l, Hn, Zplus_mod_idemp_l. f_equal. lia.
      * rewrite <- Zplus_mod_idemp_l, Hs, Zplus_mod_idemp_l. f_equal.
        unfold total_samples. lia.
  - exists []. rewrite app_nil_r. cbn. by rewrite !Z.add_0_r.
Qed.

Lemma Decode_counts fuel self w buf in_size out_buf out_size output r :
  Decode fuel self w buf in_size out_buf out_size output = Ret r ->
  wrap counter_bits (num_frames (r_self r))
  = wrap counter_bits (num_frames self + Z.of_nat (length (r_delivered r))) /\
  wrap counter_bits (decoded_samples (r_self r))
  = wrap counter_bits (decoded_samples self + total_samples (r_delivered r)).
Proof.
  unfold Decode. intros H.
  destruct (Decode_loop _ _ _) as [st'| | |] eqn:Hrun; cbn [mbind Outcome_bind] in H;
    try discriminate.
  inversion H; subst; cbn. apply Decode_loop_counts in Hrun as (frames & Hd & Hn & Hs).
  cbn in Hd. by rewrite Hd.
Qed.

Lemma Decode_counters_in_range fuel self w buf in_size out_buf out_size output r :
  Decode fuel self w buf in_size out_buf out_size output = Ret r ->
  counters_in_range self -> counters_in_range (r_self r).
Proof.
  unfold Decode. intros H Hself.
  destruct (Decode_loop _ _ _) as [st'| | |] eqn:Hrun; cbn [mbind Outcome_bind] in H;
    try discriminate.
  inversion H; subst; cbn.
  apply (Decode_loop_invariant (fun st1 => counters_in_range (ds_self st1))) with (4 := Hrun);
    [| |exact Hself].
  - intros st1 pc1 st2 Hr Hstep.
    apply parse_and_send_inv in Hstep as (? & ? & ? & ? & ? & ? & ? & _ & _ & _ & ->).
    exact Hr.
  - intros st1 pc1 st2 Hr Hstep.
    apply receive_and_deliver_inv in Hstep
      as (h & ctx & ctx1 & ret & received & _ & _ & [(_ & _ & ->) | (_ & _ & Hdel)]);
      [exact Hr|].
    destruct Hdel as (w2 & frame & m & _ & _ & ->).
    split; cbn; apply wrap_range; unfold counter_bits; lia.
Qed.


Lemma decode_calls_counts self w frames self' w' :
  decode_calls self w frames self' w' ->
  counters_in_range self ->
  Forall (fun frame => 0 <= av_nb_samples frame) frames ->
  num_frames self + Z.of_nat (length frames) < 2 ^ counter_bits ->
  decoded_samples self + total_samples frames < 2 ^ counter_bits ->
  num_frames self' = num_frames self + Z.of_nat (length frames) /\
  decoded_samples self' = decoded_samples self + total_samples frames.
Proof.
  induction 1 as [self w | self w fuel buf in_size out_buf out_size output r frames self' w'
                              Hcall Hrest IH];
    intros Hrange Hpos Hn Hs.
  - cbn. lia.
  - apply Forall_app in Hpos as [Hpos1 Hpos2].
    rewrite length_app, Nat2Z.inj_add in *. rewrite total_samples_app in *.
    pose proof (total_samples_nonneg _ Hpos1). pose proof (total_samples_nonneg _ Hpos2).
    destruct (Decode_counts _ _ _ _ _ _ _ _ _ Hcall) as [Hn1 Hs1].
    destruct (Decode_counters_in_range _ _ _ _ _ _ _ _ _ Hcall Hrange) as [Hrs Hrn].
    destruct Hrange as [Hds Hnf].
    rewrite !wrap_small in Hn1, Hs1 by lia.
    destruct IH as [IHn IHs]; [by split | done | lia | lia |]. lia.
Qed.

(** C9: over any sequence of [Decode] calls on an object with no other call
    in between, neither counter decreases: [num_frames] and
    [decoded_samples] at the end are at least what they were at the start,
    as long as the 64-bit counters have room for the blocks delivered
    (FFmpeg never reports a negative number of samples). *)
Theorem counters_never_decrease self w frames self' w' :
  decode_calls self w frames self' w' ->
  counters_in_range self ->
  Forall (fun frame => 0 <= av_nb_samples frame) frames ->
  num_frames self + Z.of_nat (length frames) < 2 ^ counter_bits ->
  decoded_samples self + total_samples frames < 2 ^ counter_bits ->
  num_frames self <= num_frames self' /\ decoded_samples self <= decoded_samples self'.
Proof.
  intros Hcalls Hrange Hpos Hn Hs.
  destruct (decode_calls_counts _ _ _ _ _ Hcalls Hrange Hpos Hn Hs) as [-> ->].
  pose proof (total_samples_nonneg _ Hpos). lia.
Qed.

(** C5: with [in_size = 0], and with [out_size = 0], the call runs no pass of
    either loop, whatever the object, the world and the other arguments: it
    returns the two sizes it was given, the object (both counters) and the
    world are as before, and no block is delivered.  (The job record still
    has the counter of the session added to it.) *)
Theorem Decode_nothing_to_do fuel self w buf in_size out_buf out_size output :
  Decode fuel self w buf 0 out_buf out_size output
  = Ret (mkDecodeResult self w (report_frames output (num_frames self)) 0 out_size []) /\
  Decode fuel self w buf in_size out_buf 0 output
  = Ret (mkDecodeResult self w (report_frames output (num_frames self)) in_size 0 []).
Proof.
  unfold Decode. split.
  - destruct fuel; reflexivity.
  - destruct fuel; cbn [Decode_loop ds_in_size ds_out_size]; change (0 <? 0) with false;
      rewrite andb_false_r; reflexivity.
Qed.

End Counters.

(** ** The output buffer and the job record *)

Section Output.
Context {F : FFmpeg}.

Lemma write_bytes_lookup (bs : list byte) (m : gmap Z byte) (dst a : Z) :
  write_bytes m dst bs !! a
  = if decide (dst <= a < dst + Z.of_nat (length bs))
    then bs !! Z.to_nat (a - dst) else m !! a.
Proof.
  revert m dst. induction bs as [|b bs IH]; intros m dst; cbn [write_bytes length].
  - case_decide; [lia | done].
  - rewrite IH. rewrite Nat2Z.inj_succ.
    destruct (decide (a = dst)) as [-> | Hne].
    + rewrite decide_False by lia. rewrite decide_True by lia.
      rewrite lookup_insert_eq. by rewrite Z.sub_diag.
    + rewrite lookup_insert_ne by done.
      repeat case_decide; try lia; try done.
      replace (Z.to_nat (a - dst)) with (S (Z.to_nat (a - (dst + 1)))) by lia. done.
Qed.

Lemma memcpy_written m dst src n m' i :
  memcpy m dst src n = Ret m' -> 0 <= i < n -> is_Some (m' !! (dst + i)).
Proof.
  unfold memcpy. destruct (Z.of_nat (length src) <? n) eqn:Hlen; [discriminate|].
  apply Z.ltb_ge in Hlen. intros [= <-] Hi.
  rewrite write_bytes_lookup, length_take. rewrite decide_True by lia.
  apply lookup_lt_is_Some. rewrite length_take. lia.
Qed.

(** The drain loop never compares the size of a block with the room left.
    When a block is larger than [out_size] it is copied all the same: the
    byte just past the end of the buffer is written, [out_size] wraps around
    to a value near 2^32, and both counters count the block. *)
Lemma deliver_ignores_capacity st st' :
  receive_and_deliver st = Ret (AtDrain, st') ->
  exists frame,
    ds_delivered st' = ds_delivered st ++ [frame] /\
    num_frames (ds_self st') = wrap counter_bits (num_frames (ds_self st) + 1) /\
    decoded_samples (ds_self st')
    = wrap counter_bits (decoded_samples (ds_self st) + av_nb_samples frame) /\
    (0 <= ds_out_size st < block_size frame -> block_size frame <= 2 ^ 32 ->
     is_Some (mem (ds_world st') !! (ds_out_buf st + ds_out_size st)) /\
     ds_out_size st' = 2 ^ 32 - (block_size frame - ds_out_size st)).
Proof.
  intros Hstep.
  apply receive_and_deliver_inv in Hstep
    as (h & ctx & ctx1 & ret & received & _ & _ & [([=] & _) | (_ & _ & Hdel)]).
  destruct Hdel as (w2 & frame & m & _ & Hcpy & ->). exists frame. cbn.
  do 3 (split; [done|]). intros Hsmall Hbig. split.
  - eapply memcpy_written; [exact Hcpy | lia].
  - unfold wrap. change (2 ^ 32) with 4294967296 in *.
    rewrite <- (Z.mod_add _ 1) by lia. rewrite Z.mod_small by lia. lia.
Qed.

(** The job record receives the counter of the session as it stands after
    the call: what the session had counted before, plus this call. *)
Lemma Decode_reports_session_counter fuel self w buf in_size out_buf out_size output r :
  Decode fuel self w buf in_size out_buf out_size output = Ret r ->
  r_output r = report_frames output (num_frames (r_self r)) /\
  wrap counter_bits (num_frames (r_self r))
  = wrap counter_bits (num_frames self + Z.of_nat (length (r_delivered r))).
Proof.
  intros H. split; [|by apply Decode_counts in H as [? _]].
  unfold Decode in H.
  destruct (Decode_loop _ _ _) as [st'| | |]; cbn [mbind Outcome_bind] in H; try discriminate.
  by inversion H.
Qed.

End Output.

(** ** Termination *)

Section Termination.
Context {F : FFmpeg}.

(** A run that ended keeps its outcome when given more fuel. *)
Lemma Decode_loop_more_fuel fuel fuel' pc st :
  Decode_loop fuel pc st <> OutOfFuel -> (fuel <= fuel')%nat ->
  Decode_loop fuel' pc st = Decode_loop fuel pc st.
Proof.
  revert fuel' pc st. induction fuel as [|fuel IH]; intros fuel' pc st Hend Hle.
  - destruct pc; cbn in *; [|done].
    destruct fuel'; cbn; destruct (_ && _); done.
  - destruct fuel' as [|fuel']; [lia|].
    destruct pc; cbn [Decode_loop] in *.
    + destruct (_ && _); [|done].
      destruct (parse_and_send st) as [[pc' st1]| | |]; cbn [mbind Outcome_bind] in *;
        try done. apply IH; [done | lia].
    + destruct (receive_and_deliver st) as [[pc' st1]| | |]; cbn [mbind Outcome_bind] in *;
        try done. apply IH; [done | lia].
Qed.

(** The loops return only from the test of the outer loop, when it fails. *)
Lemma Decode_loop_exit fuel pc st st' :
  Decode_loop fuel pc st = Ret st' ->
  (0 <? ds_in_size st') && (0 <? ds_out_size st') = false.
Proof.
  revert pc st. induction fuel as [|fuel IH]; intros pc st Hrun.
  - destruct pc; cbn in Hrun; [|discriminate].
    destruct ((0 <? ds_in_size st) && (0 <? ds_out_size st)) eqn:Hcond; [discriminate|]. by inversion Hrun; subst.
  - destruct pc; cbn [Decode_loop] in Hrun.
    + destruct ((0 <? ds_in_size st) && (0 <? ds_out_size st)) eqn:Hcond.
      * destruct (parse_and_send st) as [[pc' st1]| | |]; cbn [mbind Outcome_bind] in Hrun;
          try discriminate. exact (IH _ _ Hrun).
      * by inversion Hrun; subst.
    + destruct (receive_and_deliver st) as [[pc' st1]| | |]; cbn [mbind Outcome_bind] in Hrun;
        try discriminate. exact (IH _ _ Hrun).
Qed.

Lemma Decode_loop_sizes_nonneg fuel pc st st' :
  Decode_loop fuel pc st = Ret st' ->
  0 <= ds_in_size st /\ 0 <= ds_out_size st ->
  0 <= ds_in_size st' /\ 0 <= ds_out_size st'.
Proof.
  intros Hrun Hst.
  apply (Decode_loop_invariant (fun st1 => 0 <= ds_in_size st1 /\ 0 <= ds_out_size st1))
    with (4 := Hrun); [| |exact Hst].
  - intros st1 pc1 st2 [Hi Ho] Hstep.
    apply parse_and_send_inv in Hstep as (? & ? & ? & ? & ? & ? & ? & _ & _ & _ & ->).
    cbn. split; [apply wrap_range; lia | done].
  - intros st1 pc1 st2 [Hi Ho] Hstep.
    apply receive_and_deliver_inv in Hstep
      as (h & ctx & ctx1 & ret & received & _ & _ & [(_ & _ & ->) | (_ & _ & Hdel)]);
      [done|].
    destruct Hdel as (w2 & frame & m & _ & _ & ->). cbn.
    split; [done | apply wrap_range; lia].
Qed.

(** The loop bodies themselves use no fuel. *)
Lemma ConvertAudioFrame_ends w frame : ConvertAudioFrame w frame <> OutOfFuel.
Proof.
  unfold ConvertAudioFrame, swr_free.
  destruct (swr_context w) as [h0|]; [destruct (swr_heap w !! h0)|];
    cbn [mbind Outcome_bind]; try done;
    (destruct (swr_alloc _); [|done]);
    (destruct (_ !! _); [|done]);
    destruct (swr_convert_frame _ _ _) as [res out]; by destruct (res <? 0).
Qed.

Lemma parse_and_send_ends st : parse_and_send st <> OutOfFuel.
Proof.
  unfold parse_and_send.
  destruct (the_context _ _) as [[h ctx]|]; [|done].
  destruct (av_parser_parse2 _ _ _) as [[[parser' ctx1] ret] data].
  destruct (ret <? 0); [done|].
  destruct (Z.of_nat (length data) =? 0); [done|].
  destruct (avcodec_send_packet _ _) as [ctx2 ret2]. by destruct (ret2 <? 0).
Qed.

Lemma receive_and_deliver_ends st : receive_and_deliver st <> OutOfFuel.
Proof.
  unfold receive_and_deliver.
  destruct (the_context _ _) as [[h ctx]|]; [|done].
  destruct (avcodec_receive_frame ctx) as [[ctx1 ret] received].
  destruct (_ || _); [done|]. destruct (ret <? 0); [done|].
  destruct (av_format received =? AV_SAMPLE_FMT_S16); cbn [mbind Outcome_bind].
  - unfold memcpy. by destruct (_ <? _).
  - pose proof (ConvertAudioFrame_ends
                  (set_codec_heap (ds_world st) (<[h:=ctx1]> (codec_heap (ds_world st))))
                  received) as Hconv.
    destruct (ConvertAudioFrame _ _) as [[w2 [frame|]]| | |]; cbn [mbind Outcome_bind];
      try done.
    unfold memcpy. by destruct (_ <? _).
Qed.

Lemma terminates_step pc st (body := match pc with
                                     | AtOuter => parse_and_send st
                                     | AtDrain => receive_and_deliver st
                                     end) :
  (pc = AtOuter -> (0 <? ds_in_size st) && (0 <? ds_out_size st) = true) ->
  (forall pc' st', body = Ret (pc', st') -> terminates pc' st') ->
  terminates pc st.
Proof.
  intros Hcond Hnext. subst body.
  destruct pc.
  - pose proof (parse_and_send_ends st) as Hends.
    destruct (parse_and_send st) as [[pc' st1]| | |] eqn:Hstep; [| | |done].
    + destruct (Hnext _ _ eq_refl) as [fuel Hfuel]. exists (S fuel). cbn [Decode_loop].
      rewrite Hcond by done. by rewrite Hstep.
    + exists 1%nat. cbn [Decode_loop]. rewrite Hcond by done. by rewrite Hstep.
    + exists 1%nat. cbn [Decode_loop]. rewrite Hcond by done. by rewrite Hstep.
  - pose proof (receive_and_deliver_ends st) as Hends.
    destruct (receive_and_deliver st) as [[pc' st1]| | |] eqn:Hstep; [| | |done].
    + destruct (Hnext _ _ eq_refl) as [fuel Hfuel]. exists (S fuel). cbn [Decode_loop].
      by rewrite Hstep.
    + exists 1%nat. cbn [Decode_loop]. by rewrite Hstep.
    + exists 1%nat. cbn [Decode_loop]. by rewrite Hstep.
Qed.

(** Once the engine runs dry, the drain loop hands over to the outer loop,
    with the input cursor where it was. *)
Lemma drain_terminates (n : Z) (buf0 : list byte) :
  (forall st1, ds_in_size st1 = n -> ds_buf st1 = buf0 -> terminates AtOuter st1) ->
  forall ctx, drain_ends ctx ->
  forall st h, ds_in_size st = n -> ds_buf st = buf0 ->
               the_context (ds_self st) (ds_world st) = Some (h, ctx) ->
               terminates AtDrain st.
Proof.
  intros Houter ctx Hends.
  induction Hends as [ctx _ IH]. intros st h Hn Hbuf Hctx.
  apply terminates_step; [done|]. intros pc' st' Hstep.
  apply receive_and_deliver_inv in Hstep
    as (h' & ctx0 & ctx1 & ret & received & Hctx' & Hrecv & Hcases).
  rewrite Hctx in Hctx'. injection Hctx' as <- <-.
  destruct Hcases as [(-> & _ & ->) | (-> & Hret & Hdel)].
  - by apply Houter.
  - destruct Hdel as (w2 & frame & m & Hconv & _ & ->).
    rewrite Hrecv in IH. cbn [fst snd] in IH.
    apply (IH Hret _ h); cbn; [done | done |].
    assert (Hheap : codec_heap w2
                    = <[h := ctx1]> (codec_heap (ds_world st))).
    { destruct (av_format received =? AV_SAMPLE_FMT_S16).
      - by inversion Hconv; subst.
      - by apply ConvertAudioFrame_inv in Hconv as [-> _]. }
    unfold the_context in *. cbn. rewrite Hheap.
    destruct (c (ds_self st)) as [h0|]; [|discriminate]. cbn in *.
    destruct (codec_heap (ds_world st) !! h0); [|discriminate]. injection Hctx as -> _.
    by rewrite lookup_insert_eq.
Qed.

(** With a splitter that moves forward, every pass of the outer loop
    shortens the input that is left. *)
Lemma loops_terminate :
  splitter_progress -> (forall ctx, drain_ends ctx) ->
  forall pc st,
    0 <= ds_in_size st <= Z.of_nat (length (ds_buf st)) ->
    terminates pc st.
Proof.
  intros Hprogress Hends.
  assert (Houter : forall n st,
             Z.to_nat (ds_in_size st) = n ->
             0 <= ds_in_size st <= Z.of_nat (length (ds_buf st)) ->
             terminates AtOuter st).
  { induction n as [n IH] using lt_wf_ind. intros st Hn Hsize.
    destruct ((0 <? ds_in_size st) && (0 <? ds_out_size st)) eqn:Hcond.
    2:{ exists 0%nat. cbn. by rewrite Hcond. }
    apply andb_true_iff in Hcond as Hpos. destruct Hpos as [Hpos%Z.ltb_lt _].
    apply terminates_step; [done|]. intros pc' st' Hstep.
    apply parse_and_send_inv in Hstep
      as (h & ctx & parser' & ctx1 & ret & data & ctx' & Hctx & Hparse & Hret & ->).
    set (window := take (Z.to_nat (ds_in_size st)) (ds_buf st)) in *.
    assert (Hwindow : Z.of_nat (length window) = ds_in_size st)
      by (subst window; rewrite length_take; lia).
    assert (Hused : 1 <= ret <= ds_in_size st).
    { rewrite <- Hwindow.
      replace ret with (snd (fst (av_parser_parse2 (parser (ds_self st)) ctx window)))
        by (by rewrite Hparse).
      apply Hprogress. intros ->. cbn in Hwindow. lia. }
    assert (Hnext : wrap 32 (ds_in_size st - ret) <= ds_in_size st - ret).
    { unfold wrap. apply Z.mod_le; [lia|]. by apply Z.pow_pos_nonneg. }
    assert (Hnext0 : 0 <= wrap 32 (ds_in_size st - ret)) by (apply wrap_range; lia).
    set (st' := mkDecodeSt _ _ _ _ _ _ _).
    assert (Hsize' : 0 <= ds_in_size st' <= Z.of_nat (length (ds_buf st')))
      by (subst st'; cbn; rewrite length_drop; lia).
    assert (Hsmaller : (Z.to_nat (ds_in_size st') < n)%nat) by (subst st'; cbn; lia).
    destruct pc'.
    - by apply (IH _ Hsmaller).
    - destruct (the_context (ds_self st') (ds_world st')) as [[h' ctx'']|] eqn:Hctx'.
      + eapply (drain_terminates (ds_in_size st') (ds_buf st')); [|apply Hends| | |exact Hctx'];
          [|done|done].
        intros st1 Hn1 Hbuf1. apply (IH (Z.to_nat (ds_in_size st1))); [lia | done |].
        rewrite Hn1, Hbuf1. exact Hsize'.
      + exists 1%nat. cbn [Decode_loop]. unfold receive_and_deliver. by rewrite Hctx'. }
  intros [|] st Hsize.
  - by eapply Houter.
  - destruct (the_context (ds_self st) (ds_world st)) as [[h ctx]|] eqn:Hctx.
    + eapply (drain_terminates (ds_in_size st) (ds_buf st)); [|apply Hends| | |exact Hctx];
        [|done|done].
      intros st1 Hn1 Hbuf1. eapply Houter; [done|]. by rewrite Hn1, Hbuf1.
    + exists 1%nat. cbn [Decode_loop]. unfold receive_and_deliver. by rewrite Hctx.
Qed.

(** C3, amended: the outer loop of [Decode] has two exits, [in_size = 0] and
    [out_size = 0], and none for a splitter that stands still.  With a
    splitter that uses between one byte and the bytes it is given at every
    call, and an engine that runs dry after finitely many frames, the call
    ends on every input: some amount of fuel is enough, more fuel changes
    nothing, and a call that returns does so with one of the two sizes at 0. *)
Theorem Decode_terminates_with_progress
    self w buf in_size out_buf out_size output :
  splitter_progress -> (forall ctx, drain_ends ctx) ->
  0 <= in_size <= Z.of_nat (length buf) -> 0 <= out_size ->
  exists fuel,
    Decode fuel self w buf in_size out_buf out_size output <> OutOfFuel /\
    (forall fuel', (fuel <= fuel')%nat ->
       Decode fuel' self w buf in_size out_buf out_size output
       = Decode fuel self w buf in_size out_buf out_size output) /\
    (forall r, Decode fuel self w buf in_size out_buf out_size output = Ret r ->
               r_in_size r = 0 \/ r_out_size r = 0).
Proof.
  intros Hprogress Hends Hin Hout.
  destruct (loops_terminate Hprogress Hends AtOuter
              (mkDecodeSt self w buf in_size out_buf out_size [])) as [fuel Hfuel]; [done|].
  exists fuel. unfold Decode. split; [|split].
  - destruct (Decode_loop fuel _ _); cbn; done.
  - intros fuel' Hle. by rewrite (Decode_loop_more_fuel fuel fuel').
  - intros r Hr.
    destruct (Decode_loop fuel _ _) as [st'| | |] eqn:Hrun; cbn [mbind Outcome_bind] in Hr;
      try discriminate.
    inversion Hr; subst; cbn.
    pose proof (Decode_loop_exit _ _ _ _ Hrun) as Hexit.
    destruct (Decode_loop_sizes_nonneg _ _ _ _ Hrun) as [Hi Ho]; [cbn; lia|].
    apply andb_false_iff in Hexit as [?%Z.ltb_ge | ?%Z.ltb_ge]; lia.
Qed.

End Termination.

(** ** [Reset] *)

Section ResetFacts.
Context {F : FFmpeg}.

(** Taking one address out of a set and putting another in keeps its size. *)
Lemma size_replace (X : gset positive) (h h' : positive) :
  h ∈ X -> h' ∉ X ∖ {[h]} -> size ({[h']} ∪ X ∖ {[h]}) = size X.
Proof.
  intros Hin Hnotin.
  assert (Hsub : ({[h]} : gset positive) ⊆ X) by (by apply singleton_subseteq_l).
  pose proof (subseteq_size _ _ Hsub) as Hle. rewrite size_singleton in Hle.
  rewrite size_union by (by apply disjoint_singleton_l).
  rewrite size_difference by done. rewrite !size_singleton. lia.
Qed.

(** [Reset] on an object that holds a live context: that context is
    released once, by [avcodec_free_context], which also clears [c], so that
    the [av_free(c)] after it is given a null pointer; then one context is
    allocated and opened.  Nothing else in the world changes. *)
Lemma Reset_owned self w h0 :
  allocation_succeeds ->
  c self = Some h0 -> is_Some (codec_heap w !! h0) ->
  exists h1 ctx1,
    (h1 ∉ dom (delete h0 (codec_heap w))) /\
    Reset self w
    = Ret (mkDecoder (Some h1) (parser self) 0 0 (file self),
           mkWorld (<[h1 := ctx1]> (delete h0 (codec_heap w))) (swr_context w) (swr_heap w)
                   (mem w) (trace w ++ [EvFreeCodec h0; EvAllocCodec h1])).
Proof.
  intros Halloc Hc [ctx0 Hctx0].
  destruct (Halloc (dom (delete h0 (codec_heap w)))) as (h1 & ctx & Hnew & Hfresh & Hopen).
  destruct (avcodec_open2 ctx) as [ctx1 ret] eqn:Hopen2. cbn in Hopen.
  exists h1, ctx1. split; [done|].
  unfold Reset, avcodec_free_context, av_free. rewrite Hc, Hctx0.
  cbn [mbind Outcome_bind codec_heap set_codec_heap log]. rewrite Hnew.
  cbn [codec_heap set_codec_heap log swr_context swr_heap mem trace]. rewrite Hopen2.
  rewrite (proj2 (Z.ltb_ge ret 0)) by done.
  unfold set_codec_heap, log. cbn [codec_heap swr_context swr_heap mem trace].
  rewrite insert_insert_eq, <- app_assoc. reflexivity.
Qed.

(** The constructor is a [Reset] of an object without a context. *)
Lemma Reset_inv self w self' w' :
  Reset self w = Ret (self', w') -> owns_context self' w'.
Proof.
  unfold Reset. intros H.
  destruct (match c self with Some _ => _ | None => _ end) as [[w1 c1]| | |];
    cbn [mbind Outcome_bind] in H; try discriminate.
  destruct (avcodec_alloc_context3 _) as [[h fresh_ctx]|]; [|discriminate].
  destruct (avcodec_open2 fresh_ctx) as [ctx ret].
  destruct (ret <? 0); [discriminate|]. inversion H; subst.
  exists h. split; [done|]. cbn. rewrite lookup_insert_eq. eauto.
Qed.

Lemma Decode_owns fuel self w buf in_size out_buf out_size output r :
  Decode fuel self w buf in_size out_buf out_size output = Ret r ->
  owns_context self w -> owns_context (r_self r) (r_world r).
Proof.
  unfold Decode. intros H Hown.
  destruct (Decode_loop _ _ _) as [st'| | |] eqn:Hrun; cbn [mbind Outcome_bind] in H;
    try discriminate.
  inversion H; subst; cbn.
  apply (Decode_loop_invariant (fun st1 => owns_context (ds_self st1) (ds_world st1)))
    with (4 := Hrun); [| |exact Hown].
  - intros st1 pc1 st2 (h0 & Hc & Hlive) Hstep.
    apply parse_and_send_inv in Hstep as (h & ? & ? & ? & ? & ? & ctx' & Hctx & _ & _ & ->).
    exists h0. cbn. split; [done|].
    destruct (decide (h = h0)) as [-> | Hne];
      [rewrite lookup_insert_eq | rewrite lookup_insert_ne by done]; eauto.
  - intros st1 pc1 st2 (h0 & Hc & Hlive) Hstep.
    assert (Hins : forall h ctx1,
               is_Some (<[h := ctx1]> (codec_heap (ds_world st1)) !! h0)).
    { intros h ctx1. destruct (decide (h = h0)) as [-> | Hne];
        [rewrite lookup_insert_eq | rewrite lookup_insert_ne by done]; eauto. }
    apply receive_and_deliver_inv in Hstep
      as (h & ctx & ctx1 & ret & received & _ & _ & [(_ & _ & ->) | (_ & _ & Hdel)]).
    + exists h0. cbn. eauto.
    + destruct Hdel as (w2 & frame & m & Hconv & _ & ->). exists h0. cbn. split; [done|].
      destruct (av_format received =? AV_SAMPLE_FMT_S16).
      * inversion Hconv; subst. cbn. apply Hins.
      * apply ConvertAudioFrame_inv in Hconv as (-> & _). cbn. apply Hins.
Qed.

(** After any sequence of operations the object holds a live context. *)
Lemma reachable_owns self w : reachable self w -> owns_context self w.
Proof.
  induction 1 as [w0 self w Hnew | self w self' w' _ _ Hreset
                  | self w fuel buf in_size out_buf out_size output r _ IH Hcall].
  - unfold AjmMp3Decoder_new in Hnew.
    destruct (negb avcodec_find_decoder); [discriminate|].
    destruct av_parser_init; [|discriminate]. by apply Reset_inv in Hnew.
  - by apply Reset_inv in Hreset.
  - by eapply Decode_owns.
Qed.

(** C8: from any state the object can be in, one [Reset] and a second
    [Reset] right after it both leave [decoded_samples = 0] and
    [num_frames = 0].  Each of the two releases the context the object held
    exactly once and before it allocates the next one (the history grows by
    one release followed by one allocation), the context removed is the one
    held and the one added was not live (nothing is released twice, the
    number of live contexts stays the same), and the splitter of the object
    is the one it had before. *)
Theorem Reset_twice self w :
  allocation_succeeds -> reachable self w ->
  exists h0 h1 h2 self1 w1 self2 w2,
    c self = Some h0 /\
    Reset self w = Ret (self1, w1) /\ Reset self1 w1 = Ret (self2, w2) /\
    decoded_samples self1 = 0 /\ num_frames self1 = 0 /\
    decoded_samples self2 = 0 /\ num_frames self2 = 0 /\
    c self1 = Some h1 /\ c self2 = Some h2 /\
    trace w1 = trace w ++ [EvFreeCodec h0; EvAllocCodec h1] /\
    trace w2 = trace w1 ++ [EvFreeCodec h1; EvAllocCodec h2] /\
    dom (codec_heap w1) = {[h1]} ∪ (dom (codec_heap w) ∖ {[h0]}) /\
    dom (codec_heap w2) = {[h2]} ∪ (dom (codec_heap w1) ∖ {[h1]}) /\
    (h1 ∉ dom (codec_heap w) ∖ {[h0]}) /\ (h2 ∉ dom (codec_heap w1) ∖ {[h1]}) /\
    size (dom (codec_heap w1)) = size (dom (codec_heap w)) /\
    size (dom (codec_heap w2)) = size (dom (codec_heap w)) /\
    parser self1 = parser self /\ parser self2 = parser self.
Proof.
  intros Halloc Hreach.
  destruct (reachable_owns _ _ Hreach) as (h0 & Hc0 & Hlive0).
  destruct (Reset_owned self w h0 Halloc Hc0 Hlive0) as (h1 & ctx1 & Hfresh1 & Hreset1).
  set (self1 := mkDecoder (Some h1) (parser self) 0 0 (file self)) in *.
  set (w1 := mkWorld (<[h1 := ctx1]> (delete h0 (codec_heap w))) (swr_context w) (swr_heap w)
                     (mem w) (trace w ++ [EvFreeCodec h0; EvAllocCodec h1])) in *.
  assert (Hlive1 : is_Some (codec_heap w1 !! h1))
    by (subst w1; cbn; rewrite lookup_insert_eq; eauto).
  destruct (Reset_owned self1 w1 h1 Halloc eq_refl Hlive1) as (h2 & ctx2 & Hfresh2 & Hreset2).
  assert (Hdom1 : dom (codec_heap w1) = {[h1]} ∪ (dom (codec_heap w) ∖ {[h0]}))
    by (subst w1; cbn; by rewrite dom_insert_L, dom_delete_L).
  assert (Hsize1 : size (dom (codec_heap w1)) = size (dom (codec_heap w))).
  { rewrite Hdom1. apply size_replace; [by apply elem_of_dom|]. by rewrite <- dom_delete_L. }
  exists h0, h1, h2, self1, w1. do 2 eexists.
  split; [done|]. split; [exact Hreset1|]. split; [exact Hreset2|].
  cbn [decoded_samples num_frames c parser trace codec_heap].
  repeat (split; [done|]).
  split; [by rewrite dom_insert_L, dom_delete_L|].
  split; [by rewrite <- dom_delete_L|]. split; [by rewrite <- dom_delete_L|].
  split; [done|]. split; [|done].
  rewrite dom_insert_L, dom_delete_L, <- Hsize1.
  apply size_replace; [by apply elem_of_dom|]. by rewrite <- dom_delete_L.
Qed.

End ResetFacts.

(** ** Two objects in one world *)

Section Sessions.
Context {F : FFmpeg}.

Lemma world_sim_insert h w1 w2 ctx :
  world_sim h w1 w2 ->
  world_sim h (set_codec_heap w1 (<[h := ctx]> (codec_heap w1)))
              (set_codec_heap w2 (<[h := ctx]> (codec_heap w2))).
Proof.
  intros (_ & Hl1 & Hl2). unfold world_sim, swr_context_live in *. cbn.
  by rewrite !lookup_insert_eq.
Qed.

Lemma the_context_sim h self w1 w2 :
  c self = Some h -> world_sim h w1 w2 -> the_context self w1 = the_context self w2.
Proof. intros Hc (Hh & _). unfold the_context. rewrite Hc. cbn. by rewrite Hh. Qed.

Lemma the_context_handle self w h h' ctx :
  c self = Some h -> the_context self w = Some (h', ctx) -> h' = h.
Proof.
  unfold the_context. intros ->. cbn. destruct (codec_heap w !! h); [|done]. cbn. congruence.
Qed.

(** Whatever [swr_context] held, [ConvertAudioFrame] releases it, builds a
    context from the formats of the frame alone and converts with that one. *)
Lemma ConvertAudioFrame_rebuilds w frame :
  swr_allocation_succeeds -> swr_context_live w ->
  exists hn heap' trace',
    is_Some (heap' !! hn) /\
    ConvertAudioFrame w frame
    = convert_in (mkWorld (codec_heap w) (Some hn) heap' (mem w) trace') frame.
Proof.
  intros Halloc Hlive. unfold ConvertAudioFrame, convert_in, swr_context_live, swr_free in *.
  destruct (swr_context w) as [h0|].
  - destruct Hlive as [o0 ->]. cbn [mbind Outcome_bind swr_heap codec_heap mem trace].
    destruct (Halloc (dom (delete h0 (swr_heap w)))) as [hn ->].
    cbn [swr_heap]. rewrite lookup_insert_eq. cbn [av_ch_layout].
    do 3 eexists. split; [|destruct (swr_convert_frame _ _ _) as [res out]; reflexivity].
    rewrite lookup_insert_eq. eauto.
  - cbn [mbind Outcome_bind swr_heap codec_heap mem trace].
    destruct (Halloc (dom (swr_heap w))) as [hn ->].
    cbn [swr_heap]. rewrite lookup_insert_eq. cbn [av_ch_layout].
    do 3 eexists. split; [|destruct (swr_convert_frame _ _ _) as [res out]; reflexivity].
    rewrite lookup_insert_eq. eauto.
Qed.

Lemma ConvertAudioFrame_sim h w1 w2 frame :
  swr_allocation_succeeds -> world_sim h w1 w2 ->
  outcomes_agree (fun x1 x2 => snd x1 = snd x2 /\ world_sim h (fst x1) (fst x2))
                 (ConvertAudioFrame w1 frame) (ConvertAudioFrame w2 frame).
Proof.
  intros Halloc (Hh & Hl1 & Hl2).
  destruct (ConvertAudioFrame_rebuilds w1 frame Halloc Hl1) as (hn1 & heap1 & tr1 & Hs1 & ->).
  destruct (ConvertAudioFrame_rebuilds w2 frame Halloc Hl2) as (hn2 & heap2 & tr2 & Hs2 & ->).
  unfold convert_in. destruct (fst (swr_convert_frame _ _ _) <? 0); cbn;
    (split; [done|]); unfold world_sim, swr_context_live; cbn; done.
Qed.

Lemma parse_and_send_sim h st1 st2 :
  state_sim h st1 st2 ->
  outcomes_agree (step_sim h) (parse_and_send st1) (parse_and_send st2).
Proof.
  intros (Hc & Hself & Hbuf & Hin & Hob & Hos & Hdel & Hw).
  unfold parse_and_send.
  rewrite <- Hself, <- Hbuf, <- Hin, <- Hob, <- Hos, <- Hdel.
  rewrite <- (the_context_sim h _ _ _ Hc Hw).
  destruct (the_context _ _) as [[h' ctx]|] eqn:Hctx; [|done].
  apply (the_context_handle _ _ _ _ _ Hc) in Hctx as ->.
  destruct (av_parser_parse2 _ _ _) as [[[parser' ctx1] ret] data].
  destruct (ret <? 0); [done|].
  destruct (Z.of_nat (length data) =? 0).
  - cbn. split; [done|]. unfold state_sim. cbn.
    repeat (split; [done|]). by apply world_sim_insert.
  - destruct (avcodec_send_packet _ _) as [ctx2 ret2]. destruct (ret2 <? 0); [done|].
    cbn. split; [done|]. unfold state_sim. cbn.
    repeat (split; [done|]). by apply world_sim_insert.
Qed.

Lemma receive_and_deliver_sim h st1 st2 :
  swr_allocation_succeeds ->
  state_sim h st1 st2 ->
  outcomes_agree (step_sim h) (receive_and_deliver st1) (receive_and_deliver st2).
Proof.
  intros Halloc (Hc & Hself & Hbuf & Hin & Hob & Hos & Hdel & Hw).
  unfold receive_and_deliver.
  rewrite <- Hself, <- Hbuf, <- Hin, <- Hob, <- Hos, <- Hdel.
  rewrite <- (the_context_sim h _ _ _ Hc Hw).
  destruct (the_context _ _) as [[h' ctx]|] eqn:Hctx; [|done].
  apply (the_context_handle _ _ _ _ _ Hc) in Hctx as ->.
  destruct (avcodec_receive_frame ctx) as [[ctx1 ret] received].
  pose proof (world_sim_insert h _ _ ctx1 Hw) as Hw1.
  destruct (_ || _).
  { cbn. split; [done|]. unfold state_sim. cbn. by repeat (split; [done|]). }
  destruct (ret <? 0); [done|].
  assert (Hdeliver : forall w1' w2' frame,
             world_sim h w1' w2' ->
             outcomes_agree (step_sim h)
               (m ← memcpy (mem w1') (ds_out_buf st1) (av_data0 frame) (block_size frame);
                Ret (AtDrain,
                     mkDecodeSt
                       (mkDecoder (c (ds_self st1)) (parser (ds_self st1))
                          (wrap counter_bits (decoded_samples (ds_self st1) + av_nb_samples frame))
                          (wrap counter_bits (num_frames (ds_self st1) + 1))
                          (file (ds_self st1)
                           ++ take (Z.to_nat (block_size frame)) (av_data0 frame)))
                       (mkWorld (codec_heap w1') (swr_context w1') (swr_heap w1') m (trace w1'))
                       (ds_buf st1) (ds_in_size st1) (ds_out_buf st1 + block_size frame)
                       (wrap 32 (ds_out_size st1 - block_size frame))
                       (ds_delivered st1 ++ [frame])))
               (m ← memcpy (mem w2') (ds_out_buf st1) (av_data0 frame) (block_size frame);
                Ret (AtDrain,
                     mkDecodeSt
                       (mkDecoder (c (ds_self st1)) (parser (ds_self st1))
                          (wrap counter_bits (decoded_samples (ds_self st1) + av_nb_samples frame))
                          (wrap counter_bits (num_frames (ds_self st1) + 1))
                          (file (ds_self st1)
                           ++ take (Z.to_nat (block_size frame)) (av_data0 frame)))
                       (mkWorld (codec_heap w2') (swr_context w2') (swr_heap w2') m (trace w2'))
                       (ds_buf st1) (ds_in_size st1) (ds_out_buf st1 + block_size frame)
                       (wrap 32 (ds_out_size st1 - block_size frame))
                       (ds_delivered st1 ++ [frame])))).
  { intros w1' w2' frame Hw'. unfold memcpy.
    destruct (Z.of_nat (length (av_data0 frame)) <? block_size frame); [done|].
    cbn. split; [done|]. unfold state_sim. cbn. by repeat (split; [done|]). }
  destruct (av_format received =? AV_SAMPLE_FMT_S16); cbn [mbind Outcome_bind].
  - by apply Hdeliver.
  - pose proof (ConvertAudioFrame_sim h _ _ received Halloc Hw1) as Hconv.
    destruct (ConvertAudioFrame (set_codec_heap (ds_world st1) _) received)
      as [[w1' o1]| | |];
      destruct (ConvertAudioFrame (set_codec_heap (ds_world st2) _) received)
      as [[w2' o2]| | |]; cbn in Hconv; try done.
    destruct Hconv as [<- Hw']. cbn [mbind Outcome_bind].
    destruct o1 as [frame|]; [|done]. by apply Hdeliver.
Qed.

Lemma Decode_loop_sim h fuel pc st1 st2 :
  swr_allocation_succeeds ->
  state_sim h st1 st2 ->
  outcomes_agree (state_sim h) (Decode_loop fuel pc st1) (Decode_loop fuel pc st2).
Proof.
  intros Halloc. revert pc st1 st2.
  induction fuel as [|fuel IH]; intros pc st1 st2 Hsim;
    pose proof Hsim as (_ & _ & _ & Hin & _ & Hos & _).
  - destruct pc; cbn; [|done]. rewrite <- Hin, <- Hos. by destruct (_ && _).
  - destruct pc; cbn [Decode_loop].
    + rewrite <- Hin, <- Hos. destruct (_ && _); [|done].
      pose proof (parse_and_send_sim h st1 st2 Hsim) as Hstep.
      destruct (parse_and_send st1) as [[pc1 s1]| | |];
        destruct (parse_and_send st2) as [[pc2 s2]| | |]; cbn in Hstep; try done.
      destruct Hstep as [Hpc Hs]. cbn in Hpc, Hs. subst pc2. cbn [mbind Outcome_bind].
      by apply IH.
    + pose proof (receive_and_deliver_sim h st1 st2 Halloc Hsim) as Hstep.
      destruct (receive_and_deliver st1) as [[pc1 s1]| | |];
        destruct (receive_and_deliver st2) as [[pc2 s2]| | |]; cbn in Hstep; try done.
      destruct Hstep as [Hpc Hs]. cbn in Hpc, Hs. subst pc2. cbn [mbind Outcome_bind].
      by apply IH.
Qed.

(** A call gives the same result in two worlds that agree on the context
    of the object. *)
Lemma Decode_sim h fuel self w1 w2 buf in_size out_buf out_size output :
  swr_allocation_succeeds ->
  c self = Some h -> world_sim h w1 w2 ->
  outcomes_agree (same_result h)
    (Decode fuel self w1 buf in_size out_buf out_size output)
    (Decode fuel self w2 buf in_size out_buf out_size output).
Proof.
  intros Halloc Hc Hw. unfold Decode.
  pose proof (Decode_loop_sim h fuel AtOuter
                (mkDecodeSt self w1 buf in_size out_buf out_size [])
                (mkDecodeSt self w2 buf in_size out_buf out_size []) Halloc) as Hloop.
  destruct (Decode_loop fuel AtOuter (mkDecodeSt self w1 _ _ _ _ _)) as [s1| | |];
    destruct (Decode_loop fuel AtOuter (mkDecodeSt self w2 _ _ _ _ _)) as [s2| | |];
    cbn in *; try (by apply Hloop; unfold state_sim; cbn).
  destruct Hloop as (_ & Hself & _ & Hin & _ & Hos & Hdel & Hh & _);
    [by unfold state_sim; cbn|].
  unfold same_result. cbn. rewrite Hself, Hin, Hos, Hdel. done.
Qed.

(** A call leaves the contexts of other objects as they were, and
    [swr_context] usable. *)
Lemma Decode_frame fuel self w buf in_size out_buf out_size output r h h' :
  Decode fuel self w buf in_size out_buf out_size output = Ret r ->
  c self = Some h -> h' <> h -> swr_context_live w ->
  codec_heap (r_world r) !! h' = codec_heap w !! h' /\ swr_context_live (r_world r).
Proof.
  unfold Decode. intros H Hc Hne Hlive.
  destruct (Decode_loop _ _ _) as [st'| | |] eqn:Hrun; cbn [mbind Outcome_bind] in H;
    try discriminate.
  inversion H; subst; cbn.
  assert (Hinv : c (ds_self st') = Some h /\
                 codec_heap (ds_world st') !! h' = codec_heap w !! h' /\
                 swr_context_live (ds_world st')); [|by destruct Hinv as (_ & ? & ?)].
  apply (Decode_loop_invariant
           (fun st1 => c (ds_self st1) = Some h /\
                       codec_heap (ds_world st1) !! h' = codec_heap w !! h' /\
                       swr_context_live (ds_world st1)))
    with (4 := Hrun); [| |done].
  - intros st1 pc1 st2 (Hc1 & Hh & Hl) Hstep.
    apply parse_and_send_inv in Hstep as (h0 & ? & ? & ? & ? & ? & ctx' & Hctx & _ & _ & ->).
    apply (the_context_handle _ _ _ _ _ Hc1) in Hctx as ->. cbn.
    split; [done|]. split; [by rewrite lookup_insert_ne | done].
  - intros st1 pc1 st2 (Hc1 & Hh & Hl) Hstep.
    apply receive_and_deliver_inv in Hstep
      as (h0 & ctx & ctx1 & ret & received & Hctx & _ & Hcases).
    apply (the_context_handle _ _ _ _ _ Hc1) in Hctx as ->.
    destruct Hcases as [(_ & _ & ->) | (_ & _ & Hdel)].
    + cbn. split; [done|]. split; [by rewrite lookup_insert_ne | done].
    + destruct Hdel as (w2 & frame & m & Hconv & _ & ->). cbn. split; [done|].
      destruct (av_format received =? AV_SAMPLE_FMT_S16).
      * inversion Hconv; subst. cbn. split; [by rewrite lookup_insert_ne | done].
      * apply ConvertAudioFrame_inv in Hconv as (-> & _ & Hl2). cbn.
        split; [by rewrite lookup_insert_ne | done].
Qed.

(** C6, amended: the engine context and the splitter belong to one object
    each, but the conversion context does not: it is the one variable
    [swr_context] of the process, which every conversion of every object
    releases and rebuilds.  When calls on two objects follow one another, a
    call on the first leaves the engine context of the second as it was, and a
    call on the second returns the same sizes, delivers the same blocks and
    bytes, counts the same and leaves its own context in the same state
    whether or not the call on the first came before (as long as the
    resampler can be allocated). *)
Theorem sessions_meet_only_in_swr_context
    self_A self_B w h_A h_B fuel_A buf_A in_A out_buf_A out_A output_A r_A :
  swr_allocation_succeeds ->
  c self_A = Some h_A -> c self_B = Some h_B -> h_A <> h_B ->
  swr_context_live w ->
  Decode fuel_A self_A w buf_A in_A out_buf_A out_A output_A = Ret r_A ->
  codec_heap (r_world r_A) !! h_B = codec_heap w !! h_B /\
  forall fuel_B buf_B in_B out_buf_B out_B output_B,
    outcomes_agree (same_result h_B)
      (Decode fuel_B self_B w buf_B in_B out_buf_B out_B output_B)
      (Decode fuel_B self_B (r_world r_A) buf_B in_B out_buf_B out_B output_B).
Proof.
  intros Halloc HcA HcB Hne Hlive Hcall.
  destruct (Decode_frame _ _ _ _ _ _ _ _ _ h_A h_B Hcall HcA) as [Hkeep Hlive']; [done|done|].
  split; [done|]. intros. apply Decode_sim; [done|done|].
  unfold world_sim. by rewrite Hkeep.
Qed.

End Sessions.

(** ** Runs of the example *)

Lemma two_units_call_returns : two_units_call = Ret two_units_result.
Proof. vm_compute. reflexivity. Qed.

(** The two counters over the example call: from 0 to 2 frames, from 0 to
    4 samples. *)
Lemma counters_never_decrease_witness :
  decode_calls S16_decoder S16_world (r_delivered two_units_result ++ [])
               (r_self two_units_result) (r_world two_units_result) /\
  num_frames S16_decoder <= num_frames (r_self two_units_result) /\
  decoded_samples S16_decoder <= decoded_samples (r_self two_units_result).
Proof.
  assert (Hcalls : decode_calls S16_decoder S16_world (r_delivered two_units_result ++ [])
                     (r_self two_units_result) (r_world two_units_result))
    by (eapply calls_next; [exact two_units_call_returns | apply calls_none]).
  split; [exact Hcalls|].
  apply (counters_never_decrease _ _ _ _ _ Hcalls).
  - vm_compute. repeat split; discriminate.
  - vm_compute. repeat constructor; discriminate.
  - vm_compute. reflexivity.
  - vm_compute. reflexivity.
Defined.

Lemma second_block_is_delivered :
  receive_and_deliver second_block_state = Ret (AtDrain, second_block_delivered).
Proof. vm_compute. reflexivity. Qed.

Lemma deliver_ignores_capacity_witness :
  receive_and_deliver second_block_state = Ret (AtDrain, second_block_delivered) /\
  exists frame,
    ds_delivered second_block_delivered = ds_delivered second_block_state ++ [frame] /\
    num_frames (ds_self second_block_delivered)
    = wrap counter_bits (num_frames (ds_self second_block_state) + 1) /\
    decoded_samples (ds_self second_block_delivered)
    = wrap counter_bits (decoded_samples (ds_self second_block_state) + av_nb_samples frame) /\
    (0 <= ds_out_size second_block_state < block_size frame -> block_size frame <= 2 ^ 32 ->
     is_Some (mem (ds_world second_block_delivered)
              !! (ds_out_buf second_block_state + ds_out_size second_block_state)) /\
     ds_out_size second_block_delivered
     = 2 ^ 32 - (block_size frame - ds_out_size second_block_state)).
Proof.
  split; [exact second_block_is_delivered|].
  exact (deliver_ignores_capacity _ _ second_block_is_delivered).
Defined.

(** C2, at a failing input: two units in, 12 bytes of room at address 0, two
    blocks of 8 bytes out.  The second block meets 4 bytes of room.  The call
    does not stop short: it writes addresses 12 to 15, past the end of the
    buffer, counts the block in both counters, and returns a remaining
    output size of 2^32 - 4. *)
Theorem Decode_writes_past_output :
  two_units_call = Ret two_units_result /\
  map block_size (r_delivered two_units_result) = [8; 8] /\
  is_Some (mem (r_world two_units_result) !! 12) /\
  is_Some (mem (r_world two_units_result) !! 15) /\
  num_frames (r_self two_units_result) = 2 /\
  decoded_samples (r_self two_units_result) = 4 /\
  r_in_size two_units_result = 0 /\
  r_out_size two_units_result = 2 ^ 32 - 4.
Proof.
  split; [exact two_units_call_returns|].
  split; [vm_compute; reflexivity|].
  split; [vm_compute; eauto|]. split; [vm_compute; eauto|].
  repeat split; vm_compute; reflexivity.
Qed.

Lemma first_call_returns : first_call = Ret first_result.
Proof. vm_compute. reflexivity. Qed.

Lemma second_call_returns : second_call = Ret second_result.
Proof. vm_compute. reflexivity. Qed.

(** C4, at a failing input: two calls that deliver one block each and share
    a job record that starts at 0.  The first call adds 1.  The second call
    delivers one block and adds 2, the count of the session, so the record
    stands at 3 after two blocks. *)
Theorem Decode_adds_session_total :
  first_call = Ret first_result /\ second_call = Ret second_result /\
  length (r_delivered first_result) = 1%nat /\
  r_output first_result = mkJobOutput (Some (mkMFrame 1)) /\
  length (r_delivered second_result) = 1%nat /\
  num_frames (r_self second_result) = 2 /\
  r_output second_result = mkJobOutput (Some (mkMFrame 3)).
Proof.
  split; [exact first_call_returns|]. split; [exact second_call_returns|].
  repeat split; vm_compute; reflexivity.
Qed.

Lemma Decode_reports_session_counter_witness :
  second_call = Ret second_result /\
  r_output second_result
  = report_frames (r_output first_result) (num_frames (r_self second_result)) /\
  wrap counter_bits (num_frames (r_self second_result))
  = wrap counter_bits (num_frames (r_self first_result)
                       + Z.of_nat (length (r_delivered second_result))).
Proof.
  split; [exact second_call_returns|].
  exact (Decode_reports_session_counter _ _ _ _ _ _ _ _ _ second_call_returns).
Defined.

(** The splitter of the example uses at least one byte of a non-empty
    window, and its engine holds a finite queue. *)
Lemma example_parse_progress unit_len held window :
  window <> [] ->
  1 <= snd (fst (example_parse unit_len held window)) <= Z.of_nat (length window).
Proof.
  intros Hne. unfold example_parse.
  assert (0 < length window)%nat by (destruct window; [done | cbn; lia]).
  destruct (Nat.ltb_spec (length window) (Nat.max 1 (unit_len - length held))); cbn; lia.
Qed.

Lemma example_splitter_progress unit_len samples fmt :
  splitter_progress (F := example_ffmpeg unit_len samples fmt).
Proof.
  intros held ctx window Hne. cbn.
  pose proof (example_parse_progress unit_len held window Hne) as H.
  by destruct (example_parse unit_len held window) as [[held' used] data].
Qed.

Lemma example_drain_ends unit_len samples fmt (ready : list AVFrame) :
  drain_ends (F := example_ffmpeg unit_len samples fmt) ready.
Proof.
  induction ready as [|frame rest IH]; constructor; cbn.
  - unfold AVERROR_EAGAIN. lia.
  - intros _. exact IH.
Qed.

(** The stalled splitter leaves the state of the call as it found it. *)
Lemma stalled_pass : parse_and_send stalled_state = Ret (AtOuter, stalled_state).
Proof. vm_compute. reflexivity. Qed.

(** C3 as stated fails: with a splitter that uses no byte and yields no
    unit, one byte of input and one byte of room, no amount of fuel ends the
    call.  The outer loop has no exit for a pass without progress. *)
Lemma Decode_stalls_forever :
  ~ exists fuel,
      Decode (F := stalled_ffmpeg) fuel stalled_decoder stalled_world [x01] 1 0 1
             (mkJobOutput None) <> OutOfFuel.
Proof.
  assert (Hloop : forall fuel, Decode_loop fuel AtOuter stalled_state = OutOfFuel).
  { induction fuel as [|fuel IH]; [reflexivity|].
    cbn [Decode_loop]. change ((0 <? ds_in_size stalled_state)
                               && (0 <? ds_out_size stalled_state)) with true.
    cbv iota. rewrite stalled_pass. cbn [mbind Outcome_bind]. exact IH. }
  intros [fuel Hfuel]. apply Hfuel. unfold Decode.
  change (mkDecodeSt stalled_decoder stalled_world [x01] 1 0 1 []) with stalled_state.
  by rewrite Hloop.
Qed.

(** The first example, on the two units of the call above. *)
Lemma Decode_terminates_with_progress_witness :
  exists fuel,
    Decode (F := S16_ffmpeg) fuel S16_decoder S16_world
           [x01; x01; x01; x01; x02; x02; x02; x02] 8 0 12 (mkJobOutput None) <> OutOfFuel /\
    (forall fuel', (fuel <= fuel')%nat ->
       Decode (F := S16_ffmpeg) fuel' S16_decoder S16_world
              [x01; x01; x01; x01; x02; x02; x02; x02] 8 0 12 (mkJobOutput None)
       = Decode (F := S16_ffmpeg) fuel S16_decoder S16_world
                [x01; x01; x01; x01; x02; x02; x02; x02] 8 0 12 (mkJobOutput None)) /\
    (forall r, Decode (F := S16_ffmpeg) fuel S16_decoder S16_world
                      [x01; x01; x01; x01; x02; x02; x02; x02] 8 0 12 (mkJobOutput None)
               = Ret r ->
               r_in_size r = 0 \/ r_out_size r = 0).
Proof.
  apply (Decode_terminates_with_progress (F := S16_ffmpeg)).
  - apply example_splitter_progress.
  - apply example_drain_ends.
  - cbn. lia.
  - lia.
Defined.

(** In the example every allocation yields an address that is not in use,
    and opening a context succeeds. *)
Lemma example_allocation_succeeds unit_len samples fmt :
  allocation_succeeds (F := example_ffmpeg unit_len samples fmt).
Proof.
  intros live. exists (fresh live), []. cbn. split; [done|]. split; [apply is_fresh | lia].
Qed.

Lemma S16_decoder_constructed :
  AjmMp3Decoder_new (F := S16_ffmpeg) empty_world = Ret (S16_decoder, S16_world).
Proof. vm_compute. reflexivity. Qed.

(** [Reset] twice on the object of the first example after its call. *)
Lemma Reset_twice_witness :
  reachable (r_self two_units_result) (r_world two_units_result) /\
  exists h0 h1 h2 self1 w1 self2 w2,
    c (r_self two_units_result) = Some h0 /\
    Reset (r_self two_units_result) (r_world two_units_result) = Ret (self1, w1) /\
    Reset self1 w1 = Ret (self2, w2) /\
    decoded_samples self1 = 0 /\ num_frames self1 = 0 /\
    decoded_samples self2 = 0 /\ num_frames self2 = 0 /\
    c self1 = Some h1 /\ c self2 = Some h2 /\
    trace w1 = trace (r_world two_units_result) ++ [EvFreeCodec h0; EvAllocCodec h1] /\
    trace w2 = trace w1 ++ [EvFreeCodec h1; EvAllocCodec h2] /\
    dom (codec_heap w1) = {[h1]} ∪ (dom (codec_heap (r_world two_units_result)) ∖ {[h0]}) /\
    dom (codec_heap w2) = {[h2]} ∪ (dom (codec_heap w1) ∖ {[h1]}) /\
    (h1 ∉ dom (codec_heap (r_world two_units_result)) ∖ {[h0]}) /\
    (h2 ∉ dom (codec_heap w1) ∖ {[h1]}) /\
    size (dom (codec_heap w1)) = size (dom (codec_heap (r_world two_units_result))) /\
    size (dom (codec_heap w2)) = size (dom (codec_heap (r_world two_units_result))) /\
    parser self1 = parser (r_self two_units_result) /\
    parser self2 = parser (r_self two_units_result).
Proof.
  assert (Hreach : reachable (r_self two_units_result) (r_world two_units_result)).
  { eapply reach_Decode; [|exact two_units_call_returns].
    eapply reach_new. exact S16_decoder_constructed. }
  split; [exact Hreach|].
  exact (Reset_twice (F := S16_ffmpeg) _ _ (example_allocation_succeeds 4 2 AV_SAMPLE_FMT_S16)
                     Hreach).
Defined.

(** The two objects of the second example are what two constructor calls in
    a row build. *)
Lemma two_sessions_constructed :
  exists w_A,
    AjmMp3Decoder_new (F := FLTP_ffmpeg) empty_world = Ret (session_A, w_A) /\
    AjmMp3Decoder_new (F := FLTP_ffmpeg) w_A = Ret (session_B, two_sessions_world).
Proof. eexists. split; vm_compute; reflexivity. Qed.

Lemma call_A_returns : call_A = Ret result_A.
Proof. vm_compute. reflexivity. Qed.

Lemma call_B_after_A_returns : call_B_after_A = Ret result_B_after_A.
Proof. vm_compute. reflexivity. Qed.

(** C6 as stated fails: the conversion context is not owned by an object.
    Before the call on the first object [swr_context] is null; the call
    leaves it pointing to the context it allocated (address 1); the call on
    the second object, which never saw the first, releases that very
    context before it allocates its own. *)
Lemma swr_context_is_process_wide :
  call_A = Ret result_A /\ call_B_after_A = Ret result_B_after_A /\
  swr_context two_sessions_world = None /\
  swr_context (r_world result_A) = Some 1%positive /\
  trace (r_world result_A) = trace two_sessions_world ++ [EvAllocSwr 1] /\
  trace (r_world result_B_after_A)
  = trace (r_world result_A) ++ [EvFreeSwr 1; EvAllocSwr 1].
Proof.
  split; [exact call_A_returns|]. split; [exact call_B_after_A_returns|].
  repeat split; vm_compute; reflexivity.
Qed.

Lemma example_swr_allocation_succeeds unit_len samples fmt :
  swr_allocation_succeeds (F := example_ffmpeg unit_len samples fmt).
Proof. intros live. cbn. eauto. Qed.

(** The two objects of the second example: the call on the first does not
    touch context 2, and any call on the second gives the same result before
    and after it. *)
Lemma sessions_meet_only_in_swr_context_witness :
  codec_heap (r_world result_A) !! 2%positive = codec_heap two_sessions_world !! 2%positive /\
  forall fuel_B buf_B in_B out_buf_B out_B output_B,
    outcomes_agree (same_result 2%positive)
      (Decode fuel_B session_B two_sessions_world buf_B in_B out_buf_B out_B output_B)
      (Decode fuel_B session_B (r_world result_A) buf_B in_B out_buf_B out_B output_B).
Proof.
  apply (sessions_meet_only_in_swr_context (F := FLTP_ffmpeg)
           session_A session_B two_sessions_world 1%positive 2%positive
           8%nat [x01; x01; x01; x01] 4 0 64 (mkJobOutput None) result_A).
  - apply example_swr_allocation_succeeds.
  - reflexivity.
  - reflexivity.
  - discriminate.
  - exact I.
  - exact call_A_returns.
Defined.

(** * More of the code *)

(** ** [ParseMp3Header]: every header at once *)

(** The body of [ParseMp3Header] after line 134, as a function of the five
    indices and of the channel count of line 138. *)
Definition fields_at (unk_i version_i sr_i br_i padding channels parse_ofl : Z)
  : option (Z * AjmDecMp3ParseFrame) :=
  sr_row ← at_index SamplerateTable version_i;
  sr ← at_index sr_row sr_i;
  let f_sample_rate := wrap 32 sr in
  br_row ← at_index BitrateTable (Z.b2z (negb (version_i =? 1)));
  br ← at_index br_row br_i;
  let f_bitrate := wrap 32 (br * 1000) in
  unk ← at_index UnkTable unk_i;
  q ← cdiv (wrap 32 (unk * f_bitrate)) f_sample_rate;
  let f_frame_size := wrap 32 (q + padding) in
  let f_samples_per_channel := wrap 32 (unk * 8) in
  let f := mkFrame f_frame_size channels f_samples_per_channel
                   f_bitrate f_sample_rate 0 in
  if parse_ofl =? 0 then Some (0, f) else Some (0, f).

(** The values the indices of a header can take: bit 3 of byte 1 is shared
    by [unk_idx] and [version_idx], which leaves four pairs. *)
Definition index_pairs : list (Z * Z) := [(0, 0); (0, 2); (1, 1); (1, 3)].

(** [check] holds of every combination of index values. *)
Definition for_all_indices (check : Z -> Z -> Z -> Z -> Z -> Z -> bool) : bool :=
  forallb (fun uv =>
    forallb (fun s =>
      forallb (fun r =>
        forallb (fun p =>
          forallb (fun ch => check (fst uv) (snd uv) s r p ch) [1; 2])
          [0; 1])
        (map Z.of_nat (seq 0 16)))
      [0; 1; 2; 3])
    index_pairs.



Definition check_defined (u v s r p ch : Z) : bool :=
  Bool.eqb (match fields_at u v s r p ch 0 with Some _ => true | None => false end)
           ((v <? 3) && (s <? 3) && (r <? 15)).

Definition check_free_format (u v s r p ch : Z) : bool :=
  match fields_at u v s r p ch 0 with
  | Some (_, f) => negb (r =? 0) || ((bitrate f =? 0) && (frame_size f =? p))
  | None => true
  end.

Lemma fields_at_ignores_flag u v s r p ch parse_ofl parse_ofl' :
  fields_at u v s r p ch parse_ofl = fields_at u v s r p ch parse_ofl'.
Proof.
  unfold fields_at. repeat (apply option_bind_ext_fun; intros ?).
  now destruct (parse_ofl =? 0), (parse_ofl' =? 0).
Qed.

Lemma ParseMp3Header_fields_at b0 b1 b2 b3 rest stream_size parse_ofl :
  ParseMp3Header (b0 :: b1 :: b2 :: b3 :: rest) stream_size parse_ofl
  = fields_at (unk_idx b1) (version_idx b1) (sr_idx b2) (br_idx b2) (padding_bit b2)
              (Z.b2z (u8 b3 <? 0xc0) + 1) parse_ofl.
Proof. reflexivity. Qed.

Lemma ParseMp3Header_short buf stream_size parse_ofl :
  (length buf < 4)%nat -> ParseMp3Header buf stream_size parse_ofl = None.
Proof.
  intros Hlen. unfold ParseMp3Header.
  destruct buf as [|b0 [|b1 [|b2 [|b3 rest]]]]; cbn in Hlen; try reflexivity. lia.
Qed.

Lemma byte1_index_pair (b1 : byte) : In (unk_idx b1, version_idx b1) index_pairs.
Proof. destruct b1; vm_compute; tauto. Qed.

Lemma byte2_index_values (b2 : byte) :
  In (sr_idx b2) [0; 1; 2; 3] /\ In (br_idx b2) (map Z.of_nat (seq 0 16)) /\
  In (padding_bit b2) [0; 1].
Proof.
  destruct (spec_byte2_ranges b2) as (Hs & Hr & Hp).
  rewrite sr_idx_spec, br_idx_spec, padding_bit_spec. repeat split.
  - cbn. lia.
  - apply in_map_iff. exists (Z.to_nat (spec_br_idx (u8 b2))).
    split; [lia | apply in_seq; lia].
  - cbn. lia.
Qed.

(** A check that passes on every combination of index values passes on the
    indices of every header. *)
Lemma for_all_indices_header check (b1 b2 b3 : byte) :
  for_all_indices check = true ->
  check (unk_idx b1) (version_idx b1) (sr_idx b2) (br_idx b2) (padding_bit b2)
        (Z.b2z (u8 b3 <? 0xc0) + 1) = true.
Proof.
  unfold for_all_indices. intros Hall.
  destruct (byte2_index_values b2) as (Hs & Hr & Hp).
  rewrite forallb_forall in Hall. specialize (Hall _ (byte1_index_pair b1)). cbn [fst snd] in Hall.
  rewrite forallb_forall in Hall. specialize (Hall _ Hs).
  rewrite forallb_forall in Hall. specialize (Hall _ Hr).
  rewrite forallb_forall in Hall. specialize (Hall _ Hp).
  rewrite forallb_forall in Hall. apply Hall.
  destruct (u8 b3 <? 192); cbn; tauto.
Qed.


Lemma check_defined_all : for_all_indices check_defined = true.
Proof. vm_compute. reflexivity. Qed.

Lemma check_free_format_all : for_all_indices check_free_format = true.
Proof. vm_compute. reflexivity. Qed.



(** On a buffer with the four header bytes the parser has a defined result
    exactly when the three table indices are inside the tables, that is,
    unless the version bits of byte 1 are 01, the rate bits of byte 2 are 11
    or its bit-rate bits are 1111; byte 0, the bytes after the header and
    both other arguments do not matter.  A shorter buffer is read past its
    end.  The division of line 139 never meets a zero rate. *)
Theorem ParseMp3Header_defined_iff :
  (forall b0 b1 b2 b3 rest stream_size parse_ofl,
      is_Some (ParseMp3Header (b0 :: b1 :: b2 :: b3 :: rest) stream_size parse_ofl)
      <-> version_idx b1 < 3 /\ sr_idx b2 < 3 /\ br_idx b2 < 15) /\
  (forall buf stream_size parse_ofl,
      (length buf < 4)%nat -> ParseMp3Header buf stream_size parse_ofl = None).
Proof.
  split; [|apply ParseMp3Header_short].
  intros b0 b1 b2 b3 rest stream_size parse_ofl.
  rewrite ParseMp3Header_fields_at, (fields_at_ignores_flag _ _ _ _ _ _ _ 0).
  pose proof (for_all_indices_header check_defined b1 b2 b3 check_defined_all) as Hcheck.
  unfold check_defined in Hcheck. apply Bool.eqb_prop in Hcheck.
  destruct (fields_at _ _ _ _ _ _ 0) as [x|].
  - symmetry in Hcheck. rewrite !andb_true_iff, !Z.ltb_lt in Hcheck.
    split; [intros _; tauto | eauto].
  - symmetry in Hcheck. rewrite !andb_false_iff, !Z.ltb_ge in Hcheck.
    split; [intros [x Hx]; discriminate | lia].
Qed.

(** The record written depends on bytes 1 to 3 of the buffer alone: no sync
    pattern is looked for in byte 0, and neither the bytes that follow nor
    [stream_size] nor [parse_ofl] are consulted. *)
Theorem ParseMp3Header_reads_three_bytes
    b0 b0' b1 b2 b3 rest rest' stream_size stream_size' parse_ofl parse_ofl' :
  ParseMp3Header (b0 :: b1 :: b2 :: b3 :: rest) stream_size parse_ofl
  = ParseMp3Header (b0' :: b1 :: b2 :: b3 :: rest') stream_size' parse_ofl'.
Proof. rewrite !ParseMp3Header_fields_at. apply fields_at_ignores_flag. Qed.

(** With bit-rate index 0 the parser returns a bit rate of 0 and a frame
    size that is the padding bit alone, 0 or 1: a reader that steps through
    a stream by [frame_size] does not move past such a header. *)
Theorem ParseMp3Header_free_format b0 b1 b2 b3 rest stream_size parse_ofl status f :
  ParseMp3Header (b0 :: b1 :: b2 :: b3 :: rest) stream_size parse_ofl = Some (status, f) ->
  br_idx b2 = 0 ->
  bitrate f = 0 /\ frame_size f = padding_bit b2 /\ 0 <= frame_size f <= 1.
Proof.
  intros H Hbr.
  rewrite ParseMp3Header_fields_at, (fields_at_ignores_flag _ _ _ _ _ _ _ 0) in H.
  pose proof (for_all_indices_header check_free_format b1 b2 b3 check_free_format_all)
    as Hcheck.
  unfold check_free_format in Hcheck. rewrite H, Hbr in Hcheck. cbn [Z.eqb negb orb] in Hcheck.
  apply andb_true_iff in Hcheck as [Hb%Z.eqb_eq Hf%Z.eqb_eq].
  destruct (byte2_index_values b2) as (_ & _ & Hp). cbn in Hp. lia.
Qed.

(** The header FF FB 02 00: bit-rate index 0 with the padding bit set. *)
Lemma ParseMp3Header_free_format_witness :
  ParseMp3Header [xff; xfb; x02; x00] 4 0 = Some (0, mkFrame 1 2 1152 0 44100 0) /\
  bitrate (mkFrame 1 2 1152 0 44100 0) = 0 /\
  frame_size (mkFrame 1 2 1152 0 44100 0) = padding_bit x02 /\
  0 <= frame_size (mkFrame 1 2 1152 0 44100 0) <= 1.
Proof.
  split; [reflexivity|].
  exact (ParseMp3Header_free_format xff xfb x02 x00 [] 4 0 0
           (mkFrame 1 2 1152 0 44100 0) eq_refl eq_refl).
Defined.

(** ** [Decode]: what lands in the output buffer *)

Section OutputLayout.
Context {F : FFmpeg}.

(** The bytes line 111 copies for a block, and for a list of blocks in
    order. *)
Definition block_bytes (frame : AVFrame) : list byte :=
  take (Z.to_nat (block_size frame)) (av_data0 frame).

Definition pcm_bytes (frames : list AVFrame) : list byte :=
  concat (map block_bytes frames).

Lemma write_bytes_app (bs1 bs2 : list byte) (m : gmap Z byte) (dst : Z) :
  write_bytes m dst (bs1 ++ bs2)
  = write_bytes (write_bytes m dst bs1) (dst + Z.of_nat (length bs1)) bs2.
Proof.
  revert m dst. induction bs1 as [|b bs1 IH]; intros m dst; cbn [app write_bytes length].
  - by rewrite Z.add_0_r.
  - rewrite IH. f_equal. lia.
Qed.

Lemma pcm_bytes_snoc frames frame :
  pcm_bytes (frames ++ [frame]) = pcm_bytes frames ++ block_bytes frame.
Proof. unfold pcm_bytes. rewrite map_app, concat_app. cbn. by rewrite app_nil_r. Qed.

Lemma block_size_nonneg frame : 0 <= block_size frame.
Proof. unfold block_size. apply wrap_range. lia. Qed.

Lemma memcpy_inv m dst frame m' :
  memcpy m dst (av_data0 frame) (block_size frame) = Ret m' ->
  m' = write_bytes m dst (block_bytes frame) /\
  Z.of_nat (length (block_bytes frame)) = block_size frame.
Proof.
  unfold memcpy, block_bytes.
  destruct (Z.of_nat (length (av_data0 frame)) <? block_size frame) eqn:Hlen; [discriminate|].
  apply Z.ltb_ge in Hlen. intros [= <-]. split; [done|].
  pose proof (block_size_nonneg frame). rewrite length_take. lia.
Qed.

(** The state of a call, in terms of the blocks it has delivered since it
    started: where the output cursor stands, what memory and the file hold,
    and the room left modulo 2^32. *)
Definition laid_out (st0 st : DecodeSt) : Prop :=
  exists frames,
    ds_delivered st = ds_delivered st0 ++ frames /\
    ds_out_buf st = ds_out_buf st0 + Z.of_nat (length (pcm_bytes frames)) /\
    mem (ds_world st) = write_bytes (mem (ds_world st0)) (ds_out_buf st0) (pcm_bytes frames) /\
    file (ds_self st) = file (ds_self st0) ++ pcm_bytes frames /\
    wrap 32 (ds_out_size st)
    = wrap 32 (ds_out_size st0 - Z.of_nat (length (pcm_bytes frames))) /\
    (frames = [] /\ ds_out_size st = ds_out_size st0 \/ 0 <= ds_out_size st < 2 ^ 32).

Lemma Decode_loop_laid_out fuel pc st0 st' :
  Decode_loop fuel pc st0 = Ret st' -> laid_out st0 st'.
Proof.
  intros Hrun.
  apply (Decode_loop_invariant (laid_out st0)) with (4 := Hrun).
  - intros st1 pc1 st2 (frames & Hd & Hob & Hm & Hf & Hos & Hr) Hstep.
    apply parse_and_send_inv in Hstep as (? & ? & ? & ? & ? & ? & ? & _ & _ & _ & ->).
    exists frames. by cbn.
  - intros st1 pc1 st2 (frames & Hd & Hob & Hm & Hf & Hos & Hr) Hstep.
    apply receive_and_deliver_inv in Hstep
      as (h & ctx & ctx1 & ret & received & _ & _ & [(_ & _ & ->) | (_ & _ & Hdel)]).
    + exists frames. by cbn.
    + destruct Hdel as (w2 & frame & m & Hconv & Hcpy & ->).
      assert (Hmem : mem w2 = mem (ds_world st1)).
      { destruct (av_format received =? AV_SAMPLE_FMT_S16).
        - by inversion Hconv; subst.
        - by apply ConvertAudioFrame_inv in Hconv as (_ & -> & _). }
      apply memcpy_inv in Hcpy as [-> Hlen].
      exists (frames ++ [frame]). cbn.
      rewrite pcm_bytes_snoc, length_app, Nat2Z.inj_add, Hlen.
      split; [by rewrite Hd, app_assoc|]. split; [lia|].
      split; [by rewrite Hmem, Hm, write_bytes_app, Hob|].
      split; [by rewrite Hf, app_assoc|].
      split; [|right; apply wrap_range; lia].
      unfold wrap in *. rewrite Zmod_mod.
      rewrite <- Zminus_mod_idemp_l, Hos, Zminus_mod_idemp_l. f_equal. lia.
  - exists []. cbn. rewrite app_nil_r, Z.add_0_r, Z.sub_0_r.
    do 3 (split; [done|]). split; [by rewrite app_nil_r|]. split; [done | by left].
Qed.

(** A call that returns has copied the blocks it delivered back to back,
    in order, starting at [out_buf]: memory is what it was with those bytes
    written there, so every address outside that range keeps its byte; the
    file of the object has received the same bytes; and when they fit in
    [out_size], the size returned is [out_size] less their number. *)
Theorem Decode_output_layout fuel self w buf in_size out_buf out_size output r :
  Decode fuel self w buf in_size out_buf out_size output = Ret r ->
  let bytes := pcm_bytes (r_delivered r) in
  mem (r_world r) = write_bytes (mem w) out_buf bytes /\
  (forall i, (i < length bytes)%nat ->
             mem (r_world r) !! (out_buf + Z.of_nat i) = bytes !! i) /\
  (forall a, ~ (out_buf <= a < out_buf + Z.of_nat (length bytes)) ->
             mem (r_world r) !! a = mem w !! a) /\
  file (r_self r) = file self ++ bytes /\
  (0 <= out_size < 2 ^ 32 -> Z.of_nat (length bytes) <= out_size ->
   r_out_size r = out_size - Z.of_nat (length bytes)).
Proof.
  unfold Decode. intros H.
  destruct (Decode_loop _ _ _) as [st'| | |] eqn:Hrun; cbn [mbind Outcome_bind] in H;
    try discriminate.
  inversion H; subst; cbn [r_world r_self r_delivered r_out_size]; cbv zeta.
  apply Decode_loop_laid_out in Hrun as (frames & Hd & _ & Hm & Hf & Hos & Hr).
  cbn [ds_delivered ds_world ds_self ds_out_buf ds_out_size app] in Hd, Hm, Hf, Hos, Hr.
  subst frames.
  split; [done|]. split; [|split; [|split; [done|]]].
  - intros i Hi. rewrite Hm, write_bytes_lookup, decide_True by lia.
    f_equal. lia.
  - intros a Ha. by rewrite Hm, write_bytes_lookup, decide_False.
  - intros Hrange Hfit.
    assert (Hin : 0 <= ds_out_size st' < 2 ^ 32) by (destruct Hr as [[_ ->] | ?]; done).
    rewrite <- (wrap_small 32 (ds_out_size st')) by done.
    rewrite Hos. apply wrap_small. lia.
Qed.

End OutputLayout.

(** The first of the two calls above: one block of 8 bytes into 64. *)
Lemma Decode_output_layout_witness :
  first_call = Ret first_result /\
  let bytes := pcm_bytes (r_delivered first_result) in
  mem (r_world first_result) = write_bytes (mem S16_world) 0 bytes /\
  (forall i, (i < length bytes)%nat ->
             mem (r_world first_result) !! (0 + Z.of_nat i) = bytes !! i) /\
  (forall a, ~ (0 <= a < 0 + Z.of_nat (length bytes)) ->
             mem (r_world first_result) !! a = mem S16_world !! a) /\
  file (r_self first_result) = file S16_decoder ++ bytes /\
  (0 <= 64 < 2 ^ 32 -> Z.of_nat (length bytes) <= 64 ->
   r_out_size first_result = 64 - Z.of_nat (length bytes)).
Proof.
  split; [exact first_call_returns|].
  exact (Decode_output_layout _ _ _ _ _ _ _ _ _ first_call_returns).
Defined.

(** ** [Decode]: the input cursor *)

Section InputCursor.
Context {F : FFmpeg}.

(** The splitter reports no more bytes used than it was given. *)
Definition splitter_bounded : Prop :=
  forall p ctx window,
    snd (fst (av_parser_parse2 p ctx window)) <= Z.of_nat (length window).

(** The input left is the end of the buffer the call was given. *)
Definition input_in_step (buf : list byte) (in_size : Z) (st : DecodeSt) : Prop :=
  exists used : nat,
    ds_buf st = drop used buf /\ ds_in_size st = in_size - Z.of_nat used /\
    0 <= ds_in_size st.

Lemma Decode_loop_input_in_step fuel pc st0 st' :
  splitter_bounded ->
  0 <= ds_in_size st0 < 2 ^ 32 -> ds_in_size st0 <= Z.of_nat (length (ds_buf st0)) ->
  Decode_loop fuel pc st0 = Ret st' ->
  input_in_step (ds_buf st0) (ds_in_size st0) st'.
Proof.
  intros Hbounded Hrange Hlen Hrun.
  apply (Decode_loop_invariant (input_in_step (ds_buf st0) (ds_in_size st0)))
    with (4 := Hrun).
  - intros st1 pc1 st2 (used & Hbuf & Hin & Hpos) Hstep.
    apply parse_and_send_inv in Hstep
      as (h & ctx & parser' & ctx1 & ret & data & ctx' & _ & Hparse & Hret & ->).
    pose proof (Hbounded (parser (ds_self st1)) ctx
                  (take (Z.to_nat (ds_in_size st1)) (ds_buf st1))) as Hle.
    rewrite Hparse in Hle. cbn [fst snd] in Hle.
    rewrite length_take, Hbuf, length_drop in Hle.
    exists (used + Z.to_nat ret)%nat. cbn.
    rewrite Hbuf, drop_drop. split; [done|].
    rewrite wrap_small by lia. lia.
  - intros st1 pc1 st2 Hinv Hstep.
    apply receive_and_deliver_inv in Hstep
      as (h & ctx & ctx1 & ret & received & _ & _ & [(_ & _ & ->) | (_ & _ & Hdel)]);
      [exact Hinv|].
    destruct Hdel as (w2 & frame & m & _ & _ & ->). exact Hinv.
  - exists 0%nat. cbn. rewrite Z.sub_0_r. split; [done|]. split; [done | lia].
Qed.

(** With a splitter that stays inside the window it is given, and an input
    size that fits the buffer, the size returned is between 0 and [in_size]
    (the unsigned subtraction of line 88 never wraps), and the bytes not yet
    used are the last ones of the buffer: the cursor has moved by exactly the
    amount the size has dropped. *)
Theorem Decode_input_cursor fuel self w buf in_size out_buf out_size output r :
  splitter_bounded ->
  0 <= in_size < 2 ^ 32 -> in_size <= Z.of_nat (length buf) ->
  Decode fuel self w buf in_size out_buf out_size output = Ret r ->
  0 <= r_in_size r <= in_size /\
  exists st',
    Decode_loop fuel AtOuter (mkDecodeSt self w buf in_size out_buf out_size []) = Ret st' /\
    ds_in_size st' = r_in_size r /\
    ds_buf st' = drop (Z.to_nat (in_size - r_in_size r)) buf /\
    r_in_size r <= Z.of_nat (length (ds_buf st')).
Proof.
  unfold Decode. intros Hbounded Hrange Hlen H.
  destruct (Decode_loop _ _ _) as [st'| | |] eqn:Hrun; cbn [mbind Outcome_bind] in H;
    try discriminate.
  inversion H; subst; cbn [r_in_size].
  apply Decode_loop_input_in_step in Hrun as Hstep; [|done..].
  destruct Hstep as (used & Hbuf & Hin & Hpos). cbn in Hbuf, Hin.
  split; [lia|]. exists st'. split; [done|]. split; [done|].
  rewrite Hbuf, length_drop. split; [f_equal; lia | lia].
Qed.

End InputCursor.

Lemma example_splitter_bounded unit_len samples fmt :
  splitter_bounded (F := example_ffmpeg unit_len samples fmt).
Proof.
  intros held ctx window. cbn. unfold example_parse.
  destruct (Nat.ltb_spec (length window) (Nat.max 1 (unit_len - length held))); cbn; lia.
Qed.

(** The first of the two calls above: 4 bytes in, all of them used. *)
Lemma Decode_input_cursor_witness :
  0 <= r_in_size first_result <= 4 /\
  exists st',
    Decode_loop (F := S16_ffmpeg) 8 AtOuter
      (mkDecodeSt S16_decoder S16_world [x01; x01; x01; x01] 4 0 64 []) = Ret st' /\
    ds_in_size st' = r_in_size first_result /\
    ds_buf st' = drop (Z.to_nat (4 - r_in_size first_result)) [x01; x01; x01; x01] /\
    r_in_size first_result <= Z.of_nat (length (ds_buf st')).
Proof.
  apply (Decode_input_cursor (F := S16_ffmpeg) 8 S16_decoder S16_world
           [x01; x01; x01; x01] 4 0 64 (mkJobOutput (Some (mkMFrame 0))) first_result).
  - apply example_splitter_bounded.
  - lia.
  - cbn. lia.
  - exact first_call_returns.
Defined.

(** ** [ConvertAudioFrame]: one resampler context at a time *)

Section Resampler.
Context {F : FFmpeg}.

(** No resampler context is live but the one [swr_context] points to. *)
Definition swr_tidy (w : World) : Prop :=
  dom (swr_heap w) = match swr_context w with
                     | Some h => {[h]}
                     | None => ∅
                     end.

Lemma ConvertAudioFrame_tidy w frame w2 converted :
  swr_tidy w ->
  ConvertAudioFrame w frame = Ret (w2, converted) ->
  swr_tidy w2.
Proof.
  unfold swr_tidy, ConvertAudioFrame, swr_free. intros Htidy H.
  assert (Hgone : dom (match swr_context w with
                       | Some h0 => delete h0 (swr_heap w)
                       | None => swr_heap w
                       end) = ∅).
  { destruct (swr_context w); [|done].
    rewrite dom_delete_L, Htidy. apply difference_diag_L. }
  destruct (swr_context w) as [h0|];
    [destruct (swr_heap w !! h0); [|discriminate]|];
    cbn [mbind Outcome_bind swr_heap codec_heap mem trace] in H;
    (destruct (swr_alloc _) as [h'|]; [|discriminate]);
    cbn [swr_heap] in H; rewrite lookup_insert_eq in H;
    destruct (swr_convert_frame _ _ _) as [res out];
    destruct (res <? 0); inversion H; subst; cbn;
    rewrite dom_insert_L, Hgone; apply union_empty_r_L.
Qed.

(** Every call that returns, with a converted frame or with the null
    pointer of a failed conversion, has released the context [swr_context]
    pointed to, if any, and then allocated one: [swr_context] points to the
    new context, configured from the formats of the frame, and it is the only
    one live.  The call never keeps a context, even for a frame of the same
    formats as the one before.  Contexts of the engine and memory are left
    alone. *)
Theorem ConvertAudioFrame_one_context w frame w2 converted :
  swr_tidy w ->
  ConvertAudioFrame w frame = Ret (w2, converted) ->
  exists h',
    swr_context w2 = Some h' /\ dom (swr_heap w2) = {[h']} /\
    swr_heap w2 !! h'
    = Some (mkSwrOpts (av_ch_layout frame) AV_SAMPLE_FMT_S16 (av_sample_rate frame)
                      (av_ch_layout frame) (av_format frame) (av_sample_rate frame)) /\
    trace w2 = trace w ++ match swr_context w with
                          | Some h => [EvFreeSwr h]
                          | None => []
                          end ++ [EvAllocSwr h'] /\
    codec_heap w2 = codec_heap w /\ mem w2 = mem w.
Proof.
  unfold swr_tidy, ConvertAudioFrame, swr_free. intros Htidy H.
  assert (Hdom : forall (h' : positive) (o : SwrOpts) (X : gmap positive SwrOpts),
             dom X = ∅ -> dom (<[h' := o]> X) = {[h']}).
  { intros h' o X HX. rewrite dom_insert_L, HX. apply union_empty_r_L. }
  destruct (swr_context w) as [h0|] eqn:Hctx.
  - destruct (swr_heap w !! h0); [|discriminate].
    cbn [mbind Outcome_bind swr_heap codec_heap mem trace] in H.
    destruct (swr_alloc _) as [h'|]; [|discriminate].
    cbn [swr_heap] in H. rewrite lookup_insert_eq in H.
    destruct (swr_convert_frame _ _ _) as [res out].
    assert (Hgone : dom (delete h0 (swr_heap w)) = ∅)
      by (rewrite dom_delete_L, Htidy; apply difference_diag_L).
    exists h'. destruct (res <? 0); inversion H; subst; cbn;
      rewrite (Hdom _ _ _ Hgone), lookup_insert_eq, <- app_assoc; done.
  - cbn [mbind Outcome_bind swr_heap codec_heap mem trace] in H.
    destruct (swr_alloc _) as [h'|]; [|discriminate].
    cbn [swr_heap] in H. rewrite lookup_insert_eq in H.
    destruct (swr_convert_frame _ _ _) as [res out].
    exists h'. destruct (res <? 0); inversion H; subst; cbn;
      rewrite (Hdom _ _ _ Htidy), lookup_insert_eq; done.
Qed.

(** Calls of [Decode] never pile up resampler contexts: if none is live but
    the one [swr_context] points to before a call, the same holds after it,
    however many blocks were converted. *)
Theorem Decode_keeps_one_swr_context fuel self w buf in_size out_buf out_size output r :
  swr_tidy w ->
  Decode fuel self w buf in_size out_buf out_size output = Ret r ->
  swr_tidy (r_world r) /\ (size (dom (swr_heap (r_world r))) <= 1)%nat.
Proof.
  unfold Decode. intros Htidy H.
  destruct (Decode_loop _ _ _) as [st'| | |] eqn:Hrun; cbn [mbind Outcome_bind] in H;
    try discriminate.
  inversion H; subst; cbn [r_world].
  assert (Hfin : swr_tidy (ds_world st')).
  { apply (Decode_loop_invariant (fun st1 => swr_tidy (ds_world st1))) with (4 := Hrun);
      [| |exact Htidy].
    - intros st1 pc1 st2 Ht Hstep.
      apply parse_and_send_inv in Hstep as (? & ? & ? & ? & ? & ? & ? & _ & _ & _ & ->).
      exact Ht.
    - intros st1 pc1 st2 Ht Hstep.
      apply receive_and_deliver_inv in Hstep
        as (h & ctx & ctx1 & ret & received & _ & _ & [(_ & _ & ->) | (_ & _ & Hdel)]);
        [exact Ht|].
      destruct Hdel as (w2 & frame & m & Hconv & _ & ->). unfold swr_tidy. cbn.
      destruct (av_format received =? AV_SAMPLE_FMT_S16).
      + inversion Hconv; subst. exact Ht.
      + apply ConvertAudioFrame_tidy in Hconv; [exact Hconv | exact Ht]. }
  split; [exact Hfin|]. unfold swr_tidy in Hfin. rewrite Hfin.
  destruct (swr_context (ds_world st')); [rewrite size_singleton | rewrite size_empty]; lia.
Qed.

(** A conversion that fails ends the call in a null pointer: when the frame
    received is not 16-bit PCM and [swr_convert_frame] reports an error,
    [ConvertAudioFrame] returns [nullptr] (line 48) and line 110 reads
    through it.  The pass neither returns nor stops at an assertion. *)
Theorem failed_conversion_crashes st h ctx ctx1 ret received :
  swr_allocation_succeeds -> swr_context_live (ds_world st) ->
  the_context (ds_self st) (ds_world st) = Some (h, ctx) ->
  avcodec_receive_frame ctx = (ctx1, ret, received) ->
  0 <= ret ->
  av_format received <> AV_SAMPLE_FMT_S16 ->
  fst (swr_convert_frame
         (mkSwrOpts (av_ch_layout received) AV_SAMPLE_FMT_S16 (av_sample_rate received)
                    (av_ch_layout received) (av_format received) (av_sample_rate received))
         (mkAVFrame AV_SAMPLE_FMT_S16 (av_ch_layout received) (av_nb_samples received)
                    (av_sample_rate received) (av_data0 received))
         received) < 0 ->
  receive_and_deliver st = Crash.
Proof.
  intros Halloc Hlive Hctx Hrecv Hret Hfmt Hfail.
  unfold receive_and_deliver. rewrite Hctx, Hrecv.
  assert (Hstop : (ret =? AVERROR_EAGAIN) || (ret =? AVERROR_EOF) = false).
  { apply orb_false_iff. unfold AVERROR_EAGAIN, AVERROR_EOF. split; apply Z.eqb_neq; lia. }
  rewrite Hstop, (proj2 (Z.ltb_ge ret 0)) by done.
  rewrite (proj2 (Z.eqb_neq _ _) Hfmt).
  destruct (ConvertAudioFrame_rebuilds
              (set_codec_heap (ds_world st) (<[h := ctx1]> (codec_heap (ds_world st))))
              received Halloc) as (hn & heap' & trace' & _ & ->); [exact Hlive|].
  unfold convert_in. by rewrite (proj2 (Z.ltb_lt _ 0) Hfail).
Qed.

End Resampler.

(** A planar float block, converted in the world the call on the first of
    the two objects left: [swr_context] points to context 1. *)
Definition float_block : AVFrame :=
  example_frame 2 AV_SAMPLE_FMT_FLTP (mkAVPacket [x03; x03; x03; x03] 0 0 1).

Definition second_conversion : Outcome (@World FLTP_ffmpeg * option AVFrame) :=
  ConvertAudioFrame (F := FLTP_ffmpeg) (r_world result_A) float_block.

Definition second_conversion_world : @World FLTP_ffmpeg :=
  fst (returned_or (two_sessions_world, None) second_conversion).

Definition second_conversion_frame : option AVFrame :=
  snd (returned_or (two_sessions_world, None) second_conversion).

(** The example with a resampler that reports an error, and an object whose
    engine holds one planar float block. *)
Definition failing_ffmpeg : FFmpeg := {|
  ParserSt := list byte;
  CodecSt := list AVFrame;
  avcodec_find_decoder := true;
  av_parser_init := Some [];
  parser_pts := fun _ => 0;
  parser_dts := fun _ => 0;
  parser_key_frame := fun _ => 1;
  avcodec_alloc_context3 := fun live => Some (fresh live, []);
  avcodec_open2 := fun ctx => (ctx, 0);
  av_parser_parse2 := fun held ctx window =>
    let '(held', used, data) := example_parse 4 held window in
    (held', ctx, used, data);
  avcodec_send_packet := fun ready pkt =>
    (ready ++ [example_frame 2 AV_SAMPLE_FMT_FLTP pkt], 0);
  avcodec_receive_frame := example_receive;
  swr_alloc := fun live => Some (fresh live);
  swr_convert_frame := fun _ out _ => (-1, out)
|}.

Definition failing_state : @DecodeSt failing_ffmpeg :=
  @mkDecodeSt failing_ffmpeg
    (@mkDecoder failing_ffmpeg (Some 1%positive) [] 0 0 [])
    (@mkWorld failing_ffmpeg {[1%positive := [float_block]]} None ∅ ∅ [EvAllocCodec 1])
    [] 0 0 64 [].

Lemma second_conversion_returns :
  second_conversion = Ret (second_conversion_world, second_conversion_frame).
Proof. vm_compute. reflexivity. Qed.

Lemma ConvertAudioFrame_one_context_witness :
  swr_tidy (r_world result_A) /\
  exists h',
    swr_context second_conversion_world = Some h' /\
    dom (swr_heap second_conversion_world) = {[h']} /\
    swr_heap second_conversion_world !! h'
    = Some (mkSwrOpts (av_ch_layout float_block) AV_SAMPLE_FMT_S16 (av_sample_rate float_block)
                      (av_ch_layout float_block) (av_format float_block)
                      (av_sample_rate float_block)) /\
    trace second_conversion_world
    = trace (r_world result_A) ++ match swr_context (r_world result_A) with
                                  | Some h => [EvFreeSwr h]
                                  | None => []
                                  end ++ [EvAllocSwr h'] /\
    codec_heap second_conversion_world = codec_heap (r_world result_A) /\
    mem second_conversion_world = mem (r_world result_A).
Proof.
  assert (Htidy : swr_tidy (r_world result_A)) by (vm_compute; reflexivity).
  split; [exact Htidy|].
  exact (ConvertAudioFrame_one_context _ _ _ _ Htidy second_conversion_returns).
Defined.

Lemma Decode_keeps_one_swr_context_witness :
  swr_tidy two_sessions_world /\
  swr_tidy (r_world result_A) /\ (size (dom (swr_heap (r_world result_A))) <= 1)%nat.
Proof.
  assert (Htidy : swr_tidy two_sessions_world) by reflexivity.
  split; [exact Htidy|].
  exact (Decode_keeps_one_swr_context _ _ _ _ _ _ _ _ _ Htidy call_A_returns).
Defined.

Lemma failed_conversion_crashes_witness : receive_and_deliver failing_state = Crash.
Proof.
  apply (failed_conversion_crashes (F := failing_ffmpeg) failing_state 1%positive
           [float_block] [] 0 float_block).
  - intros live. cbn. eauto.
  - exact I.
  - reflexivity.
  - reflexivity.
  - lia.
  - discriminate.
  - cbn. lia.
Defined.

(** ** The life of an object *)

Section Lifetime.
Context {F : FFmpeg}.

(** The destructor (lines 62-65): [avcodec_free_context(&c)] followed by
    [av_free(c)].  The splitter is not released by it. *)
Definition AjmMp3Decoder_delete (self : AjmMp3Decoder) (w : World) : Outcome World :=
  '(w', c') ← avcodec_free_context w (c self);
  av_free w' c'.

(** An object built in the world [w0] and used since, by any sequence of
    [Reset] and [Decode] calls that returned. *)
Inductive lives_since (w0 : World) : AjmMp3Decoder -> World -> Prop :=
| since_new self w :
    AjmMp3Decoder_new w0 = Ret (self, w) -> lives_since w0 self w
| since_Reset self w self' w' :
    lives_since w0 self w -> Reset self w = Ret (self', w') -> lives_since w0 self' w'
| since_Decode self w fuel buf in_size out_buf out_size output r :
    lives_since w0 self w ->
    Decode fuel self w buf in_size out_buf out_size output = Ret r ->
    lives_since w0 (r_self r) (r_world r).

(** The object holds one live context that the world [w0] did not have, and
    the other contexts are those of [w0], unchanged. *)
Definition one_context_more (w0 : World) (self : AjmMp3Decoder) (w : World) : Prop :=
  exists h,
    c self = Some h /\ codec_heap w0 !! h = None /\ is_Some (codec_heap w !! h) /\
    delete h (codec_heap w) = codec_heap w0.

Lemma Reset_unowned self w :
  allocation_succeeds -> c self = None ->
  exists h1 ctx1,
    codec_heap w !! h1 = None /\
    Reset self w
    = Ret (mkDecoder (Some h1) (parser self) 0 0 (file self),
           mkWorld (<[h1 := ctx1]> (codec_heap w)) (swr_context w) (swr_heap w)
                   (mem w) (trace w ++ [EvAllocCodec h1])).
Proof.
  intros Halloc Hc.
  destruct (Halloc (dom (codec_heap w))) as (h1 & ctx & Hnew & Hfresh & Hopen).
  destruct (avcodec_open2 ctx) as [ctx1 ret] eqn:Hopen2. cbn in Hopen.
  exists h1, ctx1. split; [by apply not_elem_of_dom|].
  unfold Reset. rewrite Hc. cbn [mbind Outcome_bind]. rewrite Hnew.
  cbn [codec_heap set_codec_heap log swr_context swr_heap mem trace]. rewrite Hopen2.
  rewrite (proj2 (Z.ltb_ge ret 0)) by done.
  unfold set_codec_heap, log. cbn [codec_heap swr_context swr_heap mem trace].
  by rewrite insert_insert_eq.
Qed.

Lemma Decode_one_context_more w0 fuel self w buf in_size out_buf out_size output r :
  Decode fuel self w buf in_size out_buf out_size output = Ret r ->
  one_context_more w0 self w -> one_context_more w0 (r_self r) (r_world r).
Proof.
  unfold Decode. intros H Hone.
  destruct (Decode_loop _ _ _) as [st'| | |] eqn:Hrun; cbn [mbind Outcome_bind] in H;
    try discriminate.
  inversion H; subst; cbn [r_self r_world].
  apply (Decode_loop_invariant (fun st1 => one_context_more w0 (ds_self st1) (ds_world st1)))
    with (4 := Hrun); [| |exact Hone].
  - intros st1 pc1 st2 (h0 & Hc & Hnot & Hlive & Hrest) Hstep.
    apply parse_and_send_inv in Hstep as (h & ? & ? & ? & ? & ? & ctx' & Hctx & _ & _ & ->).
    apply (the_context_handle _ _ _ _ _ Hc) in Hctx as ->.
    exists h0. cbn. rewrite lookup_insert_eq, delete_insert_eq. eauto.
  - intros st1 pc1 st2 (h0 & Hc & Hnot & Hlive & Hrest) Hstep.
    apply receive_and_deliver_inv in Hstep
      as (h & ctx & ctx1 & ret & received & Hctx & _ & Hcases).
    apply (the_context_handle _ _ _ _ _ Hc) in Hctx as ->.
    destruct Hcases as [(_ & _ & ->) | (_ & _ & Hdel)].
    + exists h0. cbn. rewrite lookup_insert_eq, delete_insert_eq. eauto.
    + destruct Hdel as (w2 & frame & m & Hconv & _ & ->). exists h0. cbn.
      assert (Hheap : codec_heap w2 = <[h0 := ctx1]> (codec_heap (ds_world st1))).
      { destruct (av_format received =? AV_SAMPLE_FMT_S16).
        - by inversion Hconv; subst.
        - by apply ConvertAudioFrame_inv in Hconv as [-> _]. }
      rewrite Hheap, lookup_insert_eq, delete_insert_eq. eauto.
Qed.

Lemma lives_since_one_context_more w0 self w :
  allocation_succeeds -> lives_since w0 self w -> one_context_more w0 self w.
Proof.
  intros Halloc. induction 1 as [self w Hnew | self w self' w' _ IH Hreset
                                 | self w fuel buf in_size out_buf out_size output r _ IH Hcall].
  - unfold AjmMp3Decoder_new in Hnew.
    destruct (negb avcodec_find_decoder); [discriminate|].
    destruct av_parser_init as [p|]; [|discriminate].
    destruct (Reset_unowned (mkDecoder None p 0 0 []) w0 Halloc eq_refl)
      as (h1 & ctx1 & Hfresh & Heq).
    rewrite Heq in Hnew. inversion Hnew; subst.
    exists h1. cbn. rewrite lookup_insert_eq, delete_insert_id by done. eauto.
  - destruct IH as (h0 & Hc & Hnot & Hlive & Hrest).
    destruct (Reset_owned self w h0 Halloc Hc Hlive) as (h1 & ctx1 & Hfresh & Heq).
    rewrite Heq in Hreset. inversion Hreset; subst.
    apply not_elem_of_dom in Hfresh. rewrite Hrest in Hfresh.
    exists h1. cbn. rewrite lookup_insert_eq, Hrest, delete_insert_id by done. eauto.
  - by eapply Decode_one_context_more.
Qed.

(** From the constructor to the destructor, with any [Reset] and [Decode]
    calls in between and an allocator that hands out free addresses: at
    every moment the object holds exactly one live context, at an address
    the world did not use before, and all other contexts are those the world
    had, untouched; the destructor releases that one context, once, and
    leaves the contexts of the world exactly as they were before the object
    was built. *)
Theorem object_leaves_no_context w0 self w :
  allocation_succeeds -> lives_since w0 self w ->
  exists h w',
    c self = Some h /\ codec_heap w0 !! h = None /\ is_Some (codec_heap w !! h) /\
    (forall h', h' <> h -> codec_heap w !! h' = codec_heap w0 !! h') /\
    AjmMp3Decoder_delete self w = Ret w' /\
    codec_heap w' = codec_heap w0 /\
    trace w' = trace w ++ [EvFreeCodec h] /\
    swr_context w' = swr_context w /\ swr_heap w' = swr_heap w /\ mem w' = mem w.
Proof.
  intros Halloc Hlives.
  destruct (lives_since_one_context_more _ _ _ Halloc Hlives)
    as (h & Hc & Hnot & [ctx Hlive] & Hrest).
  exists h. eexists. split; [done|]. split; [done|]. split; [eauto|].
  split; [by intros h' Hne; rewrite <- Hrest, lookup_delete_ne|].
  unfold AjmMp3Decoder_delete, avcodec_free_context, av_free. rewrite Hc, Hlive.
  cbn [mbind Outcome_bind]. split; [reflexivity|]. by cbn.
Qed.

End Lifetime.

(** The object of the first example from its construction in the empty
    world through the call on two units to its destruction. *)
Lemma object_leaves_no_context_witness :
  lives_since (F := S16_ffmpeg) empty_world (r_self two_units_result)
              (r_world two_units_result) /\
  exists h w',
    c (r_self two_units_result) = Some h /\
    codec_heap (F := S16_ffmpeg) empty_world !! h = None /\
    is_Some (codec_heap (r_world two_units_result) !! h) /\
    (forall h', h' <> h ->
       codec_heap (r_world two_units_result) !! h'
       = codec_heap (F := S16_ffmpeg) empty_world !! h') /\
    AjmMp3Decoder_delete (r_self two_units_result) (r_world two_units_result) = Ret w' /\
    codec_heap w' = codec_heap (F := S16_ffmpeg) empty_world /\
    trace w' = trace (r_world two_units_result) ++ [EvFreeCodec h] /\
    swr_context w' = swr_context (r_world two_units_result) /\
    swr_heap w' = swr_heap (r_world two_units_result) /\
    mem w' = mem (r_world two_units_result).
Proof.
  assert (Hlives : lives_since (F := S16_ffmpeg) empty_world (r_self two_units_result)
                     (r_world two_units_result)).
  { eapply since_Decode; [|exact two_units_call_returns].
    apply since_new. exact S16_decoder_constructed. }
  split; [exact Hlives|].
  exact (object_leaves_no_context (F := S16_ffmpeg) _ _ _
           (example_allocation_succeeds 4 2 AV_SAMPLE_FMT_S16) Hlives).
Defined.

(** * The time-stamp counter (common/rdtsc.h) *)

Module Common.

(** [FencedRDTSC], the variant for x86-64 outside MSVC (lines 29-37).  The
    [asm] statement has two outputs, the [u64] variables [eax] and [edx],
    bound to the registers a and d; they are the arguments here.  The
    function returns [(edx << 32) | eax], a [u64] expression: the shift
    drops the bits it moves past bit 63. *)
Definition FencedRDTSC (eax edx : Z) : Z :=
  Z.lor (wrap 64 (Z.shiftl edx 32)) eax.

(** The variant for other processors (lines 42-46) logs a message and
    returns 0. *)
Definition FencedRDTSC_other : Z := 0.

End Common.

Lemma FencedRDTSC_sum eax edx :
  0 <= eax < 2 ^ 32 -> 0 <= edx < 2 ^ 32 ->
  Common.FencedRDTSC eax edx = edx * 2 ^ 32 + eax.
Proof.
  intros Ha Hd. unfold Common.FencedRDTSC.
  rewrite Z.shiftl_mul_pow2 by lia. rewrite wrap_small by (unfold counter_bits; lia).
  rewrite <- Z.shiftl_mul_pow2 by lia. rewrite <- Z.lxor_lor.
  - rewrite <- Z.add_nocarry_lxor; [done|].
    apply Z.bits_inj'. intros n Hn. rewrite Z.land_spec, Z.bits_0.
    destruct (Z.lt_ge_cases n 32).
    + rewrite Z.shiftl_spec_low by lia. done.
    + rewrite (Z.bits_above_log2 eax n); [by rewrite andb_false_r|lia|].
      destruct (Z.eq_dec eax 0) as [->|]; [cbn; lia|].
      apply Z.lt_le_trans with 32; [|lia]. apply Z.log2_lt_pow2; lia.
  - apply Z.bits_inj'. intros n Hn. rewrite Z.land_spec, Z.bits_0.
    destruct (Z.lt_ge_cases n 32).
    + rewrite Z.shiftl_spec_low by lia. done.
    + rewrite (Z.bits_above_log2 eax n); [by rewrite andb_false_r|lia|].
      destruct (Z.eq_dec eax 0) as [->|]; [cbn; lia|].
      apply Z.lt_le_trans with 32; [|lia]. apply Z.log2_lt_pow2; lia.
Qed.

(** When the two registers hold 32-bit values, as the instruction leaves
    them, the result is the 64-bit number with [edx] as its high half and
    [eax] as its low half: nothing is lost by the shift, both halves can be
    read back from the result, and results compare as the pairs
    (edx, eax) do, high half first. *)
Theorem FencedRDTSC_joins_halves eax edx :
  0 <= eax < 2 ^ 32 -> 0 <= edx < 2 ^ 32 ->
  0 <= Common.FencedRDTSC eax edx < 2 ^ 64 /\
  Z.shiftr (Common.FencedRDTSC eax edx) 32 = edx /\
  Z.land (Common.FencedRDTSC eax edx) (Z.ones 32) = eax /\
  forall eax' edx',
    0 <= eax' < 2 ^ 32 -> 0 <= edx' < 2 ^ 32 ->
    (Common.FencedRDTSC eax edx < Common.FencedRDTSC eax' edx'
     <-> edx < edx' \/ (edx = edx' /\ eax < eax')).
Proof.
  intros Ha Hd. rewrite FencedRDTSC_sum by done. split; [lia|]. split; [|split].
  - rewrite Z.shiftr_div_pow2 by lia. rewrite Z.div_add_l by lia.
    rewrite Z.div_small by lia. lia.
  - rewrite Z.land_ones by lia. rewrite Z.add_comm, Z.mod_add by lia.
    apply Z.mod_small; lia.
  - intros eax' edx' Ha' Hd'. rewrite FencedRDTSC_sum by done. nia.
Qed.

Lemma FencedRDTSC_joins_halves_witness :
  0 <= Common.FencedRDTSC 5 3 < 2 ^ 64 /\
  Z.shiftr (Common.FencedRDTSC 5 3) 32 = 3 /\
  Z.land (Common.FencedRDTSC 5 3) (Z.ones 32) = 5 /\
  forall eax' edx',
    0 <= eax' < 2 ^ 32 -> 0 <= edx' < 2 ^ 32 ->
    (Common.FencedRDTSC 5 3 < Common.FencedRDTSC eax' edx'
     <-> 3 < edx' \/ (3 = edx' /\ 5 < eax')).
Proof.
  apply (FencedRDTSC_joins_halves 5 3); lia.
Defined.

(** The shift is on a 64-bit value: a d register that held more than 32
    bits would lose its upper bits, and an a register that held more than
    32 bits would be mixed into the high half. *)
Theorem FencedRDTSC_needs_halves :
  Common.FencedRDTSC 0 (2 ^ 32) = 0 /\
  Common.FencedRDTSC (2 ^ 32) 0 = Common.FencedRDTSC 0 1.
Proof.
  split; reflexivity.
Qed.
